(** * Unity Texture Resizer: dimension rounding and batch processing

    A shallow embedding of [src/utils/imageUtils.ts], [src/types.ts] and
    the handlers of [src/App.tsx] ([handleFiles], [processAll],
    [removeImage], [clearAll], [downloadAll]), with the properties of the
    rounding policy and of the handlers. *)

From Stdlib Require Import ZArith Lia Bool.
From stdpp Require Import base list strings pretty.

Local Open Scope Z_scope.

(** ** Completions of a JavaScript computation

    A call either returns a value, throws (for an [async] function: its
    promise is rejected), or does not finish within the fuel allotted to a
    loop.  Computations thread a store [S] of whatever mutable state they can
    reach. *)

Inductive Error : Type := MkError (message : string).

Inductive completion (A : Type) : Type :=
| Normal (a : A)
| Throw (e : Error)
| OutOfFuel.
Arguments Normal {A} a.
Arguments Throw {A} e.
Arguments OutOfFuel {A}.

Definition M (S A : Type) : Type := S -> completion A * S.

Definition ret {S A : Type} (a : A) : M S A := fun s => (Normal a, s).

Definition throw {S A : Type} (e : Error) : M S A := fun s => (Throw e, s).

Definition bind {S A B : Type} (m : M S A) (k : A -> M S B) : M S B :=
  fun s =>
    match m s with
    | (Normal a, s') => k a s'
    | (Throw e, s') => (Throw e, s')
    | (OutOfFuel, s') => (OutOfFuel, s')
    end.

(** [try { body } catch (err) { handler }] *)
Definition try_catch {S A : Type} (body : M S A) (handler : Error -> M S A) : M S A :=
  fun s =>
    match body s with
    | (Throw e, s') => handler e s'
    | r => r
    end.

Declare Scope js_scope.
Delimit Scope js_scope with js.
Notation "x <- c ;; k" := (bind c (fun x => k))
  (at level 100, c at next level, right associativity) : js_scope.
Notation "c ;;; k" := (bind c (fun _ => k))
  (at level 100, right associativity) : js_scope.

(** ** src/utils/imageUtils.ts: [calculateTargetDimension]

    A [number] that holds an integer is modelled as [Z]; on integers the
    JavaScript [%] is the truncated remainder [Z.rem] (sign of the
    dividend).  The comparison, the remainder and the one addition or
    subtraction of the body are exact on every finite integer-valued
    [number]: an odd value is below 2^53, and from 2^53 on the remainder is 0
    or 2. *)

Definition calculateTargetDimension (val : Z) : Z :=
  if val <=? 2 then val
  else
    let rem := Z.rem val 4 in
    (* If remainder is 1 or 2, round down. If 3, round up. *)
    if rem <=? 2 then val - rem
    else val + (4 - rem).

(** The same body statement by statement, as a computation over an arbitrary
    store: every [return] becomes [ret]; the body has no [throw] and no
    access to anything but its parameter and its local [rem]. *)
Definition calculateTargetDimension_call {S : Type} (val : Z) : M S Z :=
  if val <=? 2 then ret val
  else
    let rem := Z.rem val 4 in
    if rem <=? 2 then ret (val - rem)
    else ret (val + (4 - rem)).

(** ** src/types.ts *)

Inductive Status : Type := pending | processing | done | error.

Definition Status_eqb (a b : Status) : bool :=
  match a, b with
  | pending, pending | processing, processing | done, done | error, error => true
  | _, _ => false
  end.

(** A [Blob] is its MIME type and its bytes; a [File] is a [Blob] with a
    name. *)
Record Blob : Type := MkBlob { blob_type : string; blob_bytes : list Byte.byte }.

Record File : Type := MkFile { name : string; type : string; content : list Byte.byte }.

Definition File_as_Blob (f : File) : Blob :=
  {| blob_type := type f; blob_bytes := content f |}.

Record ImageFile : Type := MkImageFile {
  id : string;
  file : File;
  originalWidth : Z;
  originalHeight : Z;
  targetWidth : Z;
  targetHeight : Z;
  previewUrl : string;
  processedUrl : option string;
  status : Status
}.

(** [{ ...img, status: s }] *)
Definition with_status (img : ImageFile) (s : Status) : ImageFile :=
  {| id := id img; file := file img;
     originalWidth := originalWidth img; originalHeight := originalHeight img;
     targetWidth := targetWidth img; targetHeight := targetHeight img;
     previewUrl := previewUrl img; processedUrl := processedUrl img;
     status := s |}.

(** [{ ...img, processedUrl, status: s }] *)
Definition with_processed (img : ImageFile) (url : string) (s : Status) : ImageFile :=
  {| id := id img; file := file img;
     originalWidth := originalWidth img; originalHeight := originalHeight img;
     targetWidth := targetWidth img; targetHeight := targetHeight img;
     previewUrl := previewUrl img; processedUrl := Some url;
     status := s |}.

(** ** The browser and JSZip, as seen from the handlers

    JSZip is loaded from a CDN ([declare const JSZip: any]); a JSZip object is
    modelled by its entries, kept under their names in the order in which the
    names were first added.  [zip.file(name, data)] stores the data under the
    name: it replaces the data of the entry that has this name and adds an
    entry at the end when there is none.  The names here are the base names
    of picked files; the folder entries JSZip adds for a name with a slash
    are not modelled. *)

Definition JSZip : Type := list (string * Blob).

Definition new_JSZip : JSZip := [].

Fixpoint JSZip_file (fileName : string) (data : Blob) (zip : JSZip) : JSZip :=
  match zip with
  | [] => [(fileName, data)]
  | (entryName, entryData) :: rest =>
      if String.eqb entryName fileName then (fileName, data) :: rest
      else (entryName, entryData) :: JSZip_file fileName data rest
  end.

(** The data an archive holds under a name. *)
Fixpoint JSZip_get (fileName : string) (zip : JSZip) : option Blob :=
  match zip with
  | [] => None
  | (entryName, entryData) :: rest =>
      if String.eqb entryName fileName then Some entryData
      else JSZip_get fileName rest
  end.

(** The archive after a sequence of [file] calls, first call first. *)
Definition JSZip_files (calls : list (string * Blob)) (zip : JSZip) : JSZip :=
  fold_left (fun zip call => JSZip_file (fst call) (snd call) zip) calls zip.

Inductive Response : Type := MkResponse (url : string) (body : Blob).

(** What each platform call answers is left to the environment: an oracle
    over an environment state [W] that every call may advance.  A call that
    can fail answers with [inl] or [None] or [false]. *)
Class Browser (W : Type) : Type := {
  URL_createObjectURL : Blob -> W -> string * W;
  (* img.src = src: [true] when onload fires, [false] when onerror fires *)
  Image_load : string -> W -> bool * W;
  (* a canvas of the given size; whether getContext('2d') is not null *)
  canvas_getContext : Z -> Z -> W -> bool * W;
  (* drawImage of the loaded image over the whole canvas, then
     toBlob(callback, mime, 0.95): the blob handed to the callback, or null *)
  canvas_toBlob : string -> Z -> Z -> string -> W -> option Blob * W;
  window_fetch : string -> W -> (Error + Response) * W;
  Response_blob : Response -> W -> (Error + Blob) * W;
  JSZip_generateAsync : JSZip -> W -> (Error + Blob) * W;
  (* link.click() on an anchor with this href and download attribute *)
  link_click : string -> string -> W -> unit * W
}.

(** Every platform call and its answer, in the order the calls are made. *)
Inductive Event : Type :=
| CreateObjectURL (obj : Blob) (url : string)
| ImageLoad (src : string) (loaded : bool)
| GetContext (width height : Z) (ok : bool)
| ToBlob (src : string) (width height : Z) (mime : string) (result : option Blob)
| Fetch (url : string) (result : Error + Response)
| ResponseBlob (response : Response) (result : Error + Blob)
| GenerateAsync (zip : JSZip) (result : Error + Blob)
| Click (href download : string).

Section Handlers.

Context {W : Type} `{Browser W}.

(** The store of the component: its React state ([images], [isProcessing]),
    the environment, and the trace of platform calls. *)
Record Store : Type := MkStore {
  images : list ImageFile;
  isProcessing : bool;
  world : W;
  trace : list Event
}.

Definition setImages (imgs : list ImageFile) : M Store unit :=
  fun st => (Normal tt,
             {| images := imgs; isProcessing := isProcessing st;
                world := world st; trace := trace st |}).

Definition setIsProcessing (b : bool) : M Store unit :=
  fun st => (Normal tt,
             {| images := images st; isProcessing := b;
                world := world st; trace := trace st |}).

Definition get_images : M Store (list ImageFile) :=
  fun st => (Normal (images st), st).

(** A platform call: ask the oracle, advance the environment, log the call. *)
Definition call {R : Type} (op : W -> R * W) (ev : R -> Event) : M Store R :=
  fun st =>
    let (r, w') := op (world st) in
    (Normal r,
     {| images := images st; isProcessing := isProcessing st;
        world := w'; trace := trace st ++ [ev r] |}).

(** [await] of a promise that has settled: a rejection is thrown. *)
Definition await {A : Type} (p : M Store (Error + A)) : M Store A :=
  (r <- p ;;
   match r with
   | inr a => ret a
   | inl e => throw e
   end)%js.

(** *** src/utils/imageUtils.ts: [resizeImage]

    The promise settles in one of the two image handlers: [onerror] rejects;
    [onload] rejects when there is no 2d context or when [toBlob] hands over
    [null], and resolves with the blob otherwise. *)
Definition resizeImage (file : File) (targetWidth targetHeight : Z) : M Store Blob :=
  (src <- call (URL_createObjectURL (File_as_Blob file))
               (CreateObjectURL (File_as_Blob file)) ;;
   loaded <- call (Image_load src) (ImageLoad src) ;;
   if negb loaded then throw (MkError "Failed to load image")
   else
     ctx <- call (canvas_getContext targetWidth targetHeight)
                 (GetContext targetWidth targetHeight) ;;
     if negb ctx then throw (MkError "Failed to get canvas context")
     else
       blob <- call (canvas_toBlob src targetWidth targetHeight (type file))
                    (ToBlob src targetWidth targetHeight (type file)) ;;
       match blob with
       | Some b => ret b
       | None => throw (MkError "Failed to create blob")
       end)%js.

(** *** src/App.tsx: [processAll]

    The handler is run on its own, from the React state it closes over to
    its last update, with no other handler in between its awaits.

    One iteration of the loop body for an index [i] that holds [img].  The
    array [updatedImages] is local to the call; the first assignment of the
    [try] block cannot throw, so the array the [catch] block sees is the one
    after it.  [current] is [updatedImages[i]], a slot in range. *)
Definition processAll_body (i : nat) (img : ImageFile) (updatedImages : list ImageFile)
  : M Store (list ImageFile) :=
  if Status_eqb (status img) done then ret updatedImages (* continue *)
  else
    let updatedImages := <[i := with_status img processing]> updatedImages in
    try_catch
      (setImages updatedImages ;;;
       processedBlob <- resizeImage (file img) (targetWidth img) (targetHeight img) ;;
       processedUrl <- call (URL_createObjectURL processedBlob)
                            (CreateObjectURL processedBlob) ;;
       let current := default img (updatedImages !! i) in
       let updatedImages := <[i := with_processed current processedUrl done]> updatedImages in
       setImages updatedImages ;;;
       ret updatedImages)%js
      (fun err =>
         let updatedImages := <[i := with_status img error]> updatedImages in
         setImages updatedImages ;;;
         ret updatedImages)%js.

(** [for (let i = 0; i < updatedImages.length; i++)], from index [i] on.  The
    loop ends when [i] is past the end of the array; [fuel] bounds the number
    of iterations. *)
Fixpoint processAll_loop (fuel : nat) (i : nat) (updatedImages : list ImageFile)
  : M Store (list ImageFile) :=
  match updatedImages !! i with
  | None => ret updatedImages
  | Some img =>
      match fuel with
      | O => fun st => (OutOfFuel, st)
      | S fuel' =>
          (updatedImages <- processAll_body i img updatedImages ;;
           processAll_loop fuel' (S i) updatedImages)%js
      end
  end.

Definition processAll : M Store unit :=
  (images <- get_images ;;
   if (length images =? 0)%nat then ret tt
   else
     setIsProcessing true ;;;
     let updatedImages := images in
     _ <- processAll_loop (length updatedImages) 0 updatedImages ;;
     setIsProcessing false)%js.

(** *** src/App.tsx: [downloadAll] *)

(** [img.status === 'done' && img.processedUrl]: a string is truthy when it
    is not empty, [undefined] is not. *)
Definition truthy (s : option string) : bool :=
  match s with
  | Some EmptyString | None => false
  | Some _ => true
  end.

Definition isDoneImage (img : ImageFile) : bool :=
  Status_eqb (status img) done && truthy (processedUrl img).

(** [for (const img of doneImages)], threading the JSZip object. *)
Fixpoint downloadAll_loop (doneImages : list ImageFile) (zip : JSZip) : M Store JSZip :=
  match doneImages with
  | [] => ret zip
  | img :: rest =>
      (let url := default "undefined"%string (processedUrl img) in
       response <- await (call (window_fetch url) (Fetch url)) ;;
       blob <- await (call (Response_blob response) (ResponseBlob response)) ;;
       (* Use original file name *)
       let fileName := name (file img) in
       downloadAll_loop rest (JSZip_file fileName blob zip))%js
  end.

Definition downloadAll : M Store unit :=
  (let zip := new_JSZip in
   images <- get_images ;;
   let doneImages := List.filter isDoneImage images in
   if (length doneImages =? 0)%nat then ret tt
   else
     zip <- downloadAll_loop doneImages zip ;;
     content <- await (call (JSZip_generateAsync zip) (GenerateAsync zip)) ;;
     href <- call (URL_createObjectURL content) (CreateObjectURL content) ;;
     call (link_click href "unity_textures_resized.zip")
          (fun _ => Click href "unity_textures_resized.zip"))%js.

(** *** Vocabulary of the statements about the handlers *)

(** The resampler rejects, or resolves, for [img] when started in [st]. *)
Definition resize_rejects (img : ImageFile) (st : Store) : Prop :=
  exists e st',
    resizeImage (file img) (targetWidth img) (targetHeight img) st = (Throw e, st').

Definition resize_resolves (img : ImageFile) (st : Store) : Prop :=
  exists blob st',
    resizeImage (file img) (targetWidth img) (targetHeight img) st = (Normal blob, st').

(** What one batch run makes of [img]: an image that is done stays as it is;
    any other one becomes an error record if its own resample was rejected
    and a done record with a fresh URL if its own resample resolved. *)
Definition item_outcome (img img' : ImageFile) : Prop :=
  (status img = done /\ img' = img) \/
  (status img <> done /\
   (((exists st, resize_rejects img st) /\ img' = with_status img error) \/
    (exists url, (exists st, resize_resolves img st) /\
                 img' = with_processed img url done))).

(** [Fetched imgs evs calls]: [evs] are the calls that fetch the processed
    URL of each image of [imgs] in turn and read its blob, all successful,
    and [calls] pairs each image's file name with the blob read for it: the
    arguments of the [zip.file] calls, in order. *)
Inductive Fetched : list ImageFile -> list Event -> list (string * Blob) -> Prop :=
| Fetched_nil : Fetched [] [] []
| Fetched_cons img rest response blob evs entries :
    Fetched rest evs entries ->
    Fetched (img :: rest)
            (Fetch (default "undefined"%string (processedUrl img)) (inr response)
               :: ResponseBlob response (inr blob) :: evs)
            ((name (file img), blob) :: entries).

Definition is_Click (ev : Event) : bool :=
  match ev with
  | Click _ _ => true
  | _ => false
  end.

Definition is_GenerateAsync (ev : Event) : bool :=
  match ev with
  | GenerateAsync _ _ => true
  | _ => false
  end.

(** [ev] is a platform call of [downloadAll] that was rejected with [e]. *)
Definition rejected_call (ev : Event) (e : Error) : Prop :=
  match ev with
  | Fetch _ (inl e') | ResponseBlob _ (inl e') | GenerateAsync _ (inl e') => e' = e
  | _ => False
  end.

End Handlers.

Arguments Store W : clear implicits.

(** ** The rest of the component: adding, removing and clearing images

    Three more platform calls are used here: reading the size of a loaded
    image, [Math.random().toString(36)], and [URL.revokeObjectURL].  A
    loaded image's [width] and [height] are unsigned. *)
Class PagePlatform (W : Type) : Type := {
  (* img.width and img.height of the image loaded from this src *)
  Image_size : string -> W -> N * N;
  Math_random_toString36 : W -> string * W;
  URL_revokeObjectURL : string -> W -> W
}.

(** [s.substring(n)]: what is left of [s] from index [n] on. *)
Definition substring_from (n : nat) (s : string) : string :=
  String.substring n (String.length s - n) s.

Section Page.

Context {W : Type} `{Browser W} `{PagePlatform W}.

(** The component store with what the added calls leave behind: the URLs
    handed to [URL.revokeObjectURL], and the [console.error] lines (file name
    and error), each in the order of the calls. *)
Record Page : Type := MkPage {
  app : Store W;
  revoked : list string;
  console : list (string * Error)
}.

(** A computation of the handlers' store, run inside the page. *)
Definition in_app {A : Type} (m : M (Store W) A) : M Page A :=
  fun p =>
    let (r, st') := m (app p) in
    (r, {| app := st'; revoked := revoked p; console := console p |}).

Definition with_world (st : Store W) (w : W) : Store W :=
  {| images := images st; isProcessing := isProcessing st;
     world := w; trace := trace st |}.

Definition revokeObjectURL (url : string) : M Page unit :=
  fun p =>
    (Normal tt,
     {| app := with_world (app p) (URL_revokeObjectURL url (world (app p)));
        revoked := revoked p ++ [url]; console := console p |}).

Definition console_error (fileName : string) (err : Error) : M Page unit :=
  fun p =>
    (Normal tt,
     {| app := app p; revoked := revoked p;
        console := console p ++ [(fileName, err)] |}).

Definition image_size (src : string) : M Page (Z * Z) :=
  fun p =>
    let (width, height) := Image_size src (world (app p)) in
    (Normal (Z.of_N width, Z.of_N height), p).

Definition random_toString36 : M Page string :=
  fun p =>
    let (s, w') := Math_random_toString36 (world (app p)) in
    (Normal s, {| app := with_world (app p) w'; revoked := revoked p;
                  console := console p |}).

(** *** src/utils/imageUtils.ts: [getImageDimensions]

    [onload] resolves with the size and then revokes the URL, before the
    awaiting caller goes on; [onerror] rejects and revokes nothing. *)
Definition getImageDimensions (file : File) : M Page (Z * Z) :=
  (src <- in_app (call (URL_createObjectURL (File_as_Blob file))
                       (CreateObjectURL (File_as_Blob file))) ;;
   loaded <- in_app (call (Image_load src) (ImageLoad src)) ;;
   if loaded then
     size <- image_size src ;;
     revokeObjectURL src ;;;
     ret size
   else throw (MkError "Failed to load image for dimensions"))%js.

(** *** src/App.tsx: [handleFiles]

    [for (let i = 0; i < files.length; i++)] over the file list, with the
    array [newImages] built so far.  The [push] is the last statement of the
    [try] block, so the [catch] block sees the array as it was. *)
Fixpoint handleFiles_loop (files : list File) (newImages : list ImageFile)
  : M Page (list ImageFile) :=
  match files with
  | [] => ret newImages
  | file :: rest =>
      if negb (String.prefix "image/" (type file))
      then handleFiles_loop rest newImages (* continue *)
      else
        (newImages <-
           try_catch
             (size <- getImageDimensions file ;;
              let width := fst size in
              let height := snd size in
              let targetWidth := calculateTargetDimension width in
              let targetHeight := calculateTargetDimension height in
              random <- random_toString36 ;;
              previewUrl <- in_app (call (URL_createObjectURL (File_as_Blob file))
                                         (CreateObjectURL (File_as_Blob file))) ;;
              ret (newImages ++
                   [ {| id := substring_from 7 random;
                        file := file;
                        originalWidth := width;
                        originalHeight := height;
                        targetWidth := targetWidth;
                        targetHeight := targetHeight;
                        previewUrl := previewUrl;
                        processedUrl := None;
                        status := pending |} ]))%js
             (fun err => console_error (name file) err ;;; ret newImages)%js ;;
         handleFiles_loop rest newImages)%js
  end.

(** [files] is [null] or a file list; [setImages(prev => [...prev,
    ...newImages])] updates the list the store holds at that moment. *)
Definition handleFiles (files : option (list File)) : M Page unit :=
  match files with
  | None => ret tt
  | Some files =>
      (newImages <- handleFiles_loop files [] ;;
       prev <- in_app get_images ;;
       in_app (setImages (prev ++ newImages)))%js
  end.

(** *** src/App.tsx: [removeImage] and [clearAll] *)

(** [URL.revokeObjectURL(img.previewUrl); if (img.processedUrl)
    URL.revokeObjectURL(img.processedUrl)] *)
Definition revoke_urls (img : ImageFile) : M Page unit :=
  (revokeObjectURL (previewUrl img) ;;;
   if truthy (processedUrl img)
   then revokeObjectURL (default ""%string (processedUrl img))
   else ret tt)%js.

Definition removeImage (id' : string) : M Page unit :=
  (prev <- in_app get_images ;;
   let filtered := List.filter (fun img => negb (String.eqb (id img) id')) prev in
   (* Revoke URLs to prevent memory leaks *)
   let removed := List.find (fun img => String.eqb (id img) id') prev in
   match removed with
   | Some removed => revoke_urls removed
   | None => ret tt
   end ;;;
   in_app (setImages filtered))%js.

(** [images.forEach(img => ...)] *)
Fixpoint clearAll_forEach (imgs : list ImageFile) : M Page unit :=
  match imgs with
  | [] => ret tt
  | img :: rest => (revoke_urls img ;;; clearAll_forEach rest)%js
  end.

Definition clearAll : M Page unit :=
  (images <- in_app get_images ;;
   clearAll_forEach images ;;;
   in_app (setImages []))%js.

(** *** src/App.tsx: the [disabled] attributes of the two buttons *)


(** [!images.some(img => img.status === 'done')] *)
Definition downloadAll_disabled (st : Store W) : bool :=
  negb (existsb (fun img => Status_eqb (status img) done) (images st)).

(** *** Vocabulary of the statements about the page *)

(** Only [processedUrl] and [status] may differ between the two records. *)
Definition same_source (a b : ImageFile) : Prop :=
  id a = id b /\ file a = file b /\
  originalWidth a = originalWidth b /\ originalHeight a = originalHeight b /\
  targetWidth a = targetWidth b /\ targetHeight a = targetHeight b /\
  previewUrl a = previewUrl b.

(** The URLs [revoke_urls] hands to the platform for [img]. *)
Definition urls_of (img : ImageFile) : list string :=
  previewUrl img ::
  (if truthy (processedUrl img) then [default ""%string (processedUrl img)] else []).

(** Events of a resample: object URLs, image loads, canvas calls. *)
Definition is_resample_event (ev : Event) : bool :=
  match ev with
  | CreateObjectURL _ _ | ImageLoad _ _ | GetContext _ _ _ | ToBlob _ _ _ _ _ => true
  | _ => false
  end.

(** What a batch run makes of the record in one slot, with the origin of a
    new processed URL: an object URL the platform handed out. *)
Definition slot_result (img img' : ImageFile) : Prop :=
  (status img = done /\ img' = img) \/
  (status img <> done /\
   (img' = with_status img error \/
    exists blob w, img' = with_processed img (fst (URL_createObjectURL blob w)) done)).

(** A record as [handleFiles] builds it: pending, not processed, with the
    size the platform read and the targets the rounding policy gives. *)
Definition freshly_added (img : ImageFile) : Prop :=
  status img = pending /\ processedUrl img = None /\
  0 <= originalWidth img /\ 0 <= originalHeight img /\
  targetWidth img = calculateTargetDimension (originalWidth img) /\
  targetHeight img = calculateTargetDimension (originalHeight img).

Definition is_image_file (f : File) : bool := String.prefix "image/" (type f).

(** [Accounted files new errs]: going through [files] in order, each file is
    either the file of the next record of [new], or the next line of [errs]
    reports it under its name with the load error; nothing else is in [new]
    or in [errs]. *)
Inductive Accounted : list File -> list ImageFile -> list (string * Error) -> Prop :=
| Accounted_nil : Accounted [] [] []
| Accounted_added f rest img new errs :
    file img = f ->
    Accounted rest new errs ->
    Accounted (f :: rest) (img :: new) errs
| Accounted_reported f rest new errs :
    Accounted rest new errs ->
    Accounted (f :: rest) new
      ((name f, MkError "Failed to load image for dimensions") :: errs).

(** A dimension fit for block compression: a multiple of 4, or a kept 0, 1
    or 2. *)
Definition crunch_compatible (original target : Z) : Prop :=
  (original <= 2 /\ target = original) \/ (2 < original /\ (4 | target)).

End Page.

Arguments Page W : clear implicits.

(** ** The store a batch run is in when it resamples a slot *)

Section BatchRun.

Context {W : Type} `{Browser W}.

(** The first [k] iterations of the loop of [processAll]: the iterations for
    the slots 0 to [k - 1], one after the other. *)
Fixpoint processAll_upto (k : nat) (updatedImages : list ImageFile)
  : M (Store W) (list ImageFile) :=
  match k with
  | O => ret updatedImages
  | S k' =>
      (updatedImages <- processAll_upto k' updatedImages ;;
       match updatedImages !! k' with
       | Some img => processAll_body k' img updatedImages
       | None => ret updatedImages
       end)%js
  end.

(** The store in which the loop, started on [updatedImages0] in [s0], calls
    [resizeImage] for slot [k]: the one reached after the iterations for the
    slots before [k], with slot [k] marked as processing. *)
Definition resample_store_from (updatedImages0 : list ImageFile) (s0 : Store W)
    (k : nat) : Store W :=
  match processAll_upto k updatedImages0 s0 with
  | (Normal updatedImages, s) =>
      match updatedImages !! k with
      | Some img =>
          snd (setImages (<[k := with_status img processing]> updatedImages) s)
      | None => s
      end
  | (_, s) => s
  end.

(** The same for a run of [processAll] from [st], which sets the busy flag
    before the loop. *)
Definition resample_store (st : Store W) (k : nat) : Store W :=
  resample_store_from (images st) (snd (setIsProcessing true st)) k.

(** How the resample of [img] ends when the run from [st] makes it for slot
    [k]. *)
Definition resample_outcome (st : Store W) (k : nat) (img : ImageFile)
  : completion Blob :=
  fst (resizeImage (file img) (targetWidth img) (targetHeight img)
         (resample_store st k)).

(** What the loop makes of the record in slot [k], by the outcome of the
    resample it makes for that slot. *)
Definition slot_outcome_from (updatedImages0 : list ImageFile) (s0 : Store W)
    (k : nat) (img img' : ImageFile) : Prop :=
  (status img = done /\ img' = img) \/
  (status img <> done /\
   ((exists e s',
       resizeImage (file img) (targetWidth img) (targetHeight img)
         (resample_store_from updatedImages0 s0 k) = (Throw e, s') /\
       img' = with_status img error) \/
    (exists blob s' url,
       resizeImage (file img) (targetWidth img) (targetHeight img)
         (resample_store_from updatedImages0 s0 k) = (Normal blob, s') /\
       img' = with_processed img url done))).

End BatchRun.

(** ** A small browser, for running the handlers on examples

    Its state is the registry of object URLs, newest first.  An image loads
    when its URL is registered and its blob has bytes; a canvas always has a
    2d context; [toBlob] hands over a blob when the canvas has a positive
    area; a fetch succeeds on a registered URL. *)

Definition Registry : Type := list (string * Blob).

Fixpoint registry_lookup (url : string) (reg : Registry) : option Blob :=
  match reg with
  | [] => None
  | (u, b) :: rest => if String.eqb u url then Some b else registry_lookup url rest
  end.

Definition has_bytes (b : Blob) : bool :=
  match blob_bytes b with
  | [] => false
  | _ :: _ => true
  end.

#[export] Instance example_browser : Browser Registry := {|
  URL_createObjectURL b reg :=
    let url := ("blob:" +:+ pretty (length reg))%string in (url, (url, b) :: reg);
  Image_load src reg :=
    (match registry_lookup src reg with
     | Some b => has_bytes b
     | None => false
     end, reg);
  canvas_getContext w h reg := (true, reg);
  canvas_toBlob src w h mime reg :=
    (if (0 <? w) && (0 <? h)
     then Some {| blob_type := mime; blob_bytes := [Byte.x2a] |}
     else None, reg);
  window_fetch url reg :=
    (match registry_lookup url reg with
     | Some b => inr (MkResponse url b)
     | None => inl (MkError "Failed to fetch")
     end, reg);
  Response_blob response reg :=
    (match response with MkResponse _ body => inr body end, reg);
  JSZip_generateAsync zip reg :=
    (inr {| blob_type := "application/zip"; blob_bytes := [Byte.x50; Byte.x4b] |}, reg);
  link_click href download reg := (tt, reg)
|}.

(** A batch of three: a 33x35 image whose file has no bytes (it will not
    load), a 2x2 mask, and an image processed earlier. *)
Definition broken_image : ImageFile :=
  {| id := "a1"; file := MkFile "broken.png" "image/png" [];
     originalWidth := 33; originalHeight := 35;
     targetWidth := calculateTargetDimension 33;
     targetHeight := calculateTargetDimension 35;
     previewUrl := "blob:preview-a1"; processedUrl := None; status := pending |}.

Definition mask_image : ImageFile :=
  {| id := "b2"; file := MkFile "mask.png" "image/png" [Byte.x89; Byte.x50];
     originalWidth := 2; originalHeight := 2;
     targetWidth := calculateTargetDimension 2;
     targetHeight := calculateTargetDimension 2;
     previewUrl := "blob:preview-b2"; processedUrl := None; status := pending |}.

Definition ready_image : ImageFile :=
  {| id := "c3"; file := MkFile "ready.png" "image/png" [Byte.x89; Byte.x50];
     originalWidth := 36; originalHeight := 36;
     targetWidth := calculateTargetDimension 36;
     targetHeight := calculateTargetDimension 36;
     previewUrl := "blob:preview-c3"; processedUrl := Some "blob:0"%string;
     status := done |}.

Definition example_store : Store Registry :=
  {| images := [broken_image; mask_image; ready_image];
     isProcessing := false;
     world := [("blob:0"%string, {| blob_type := "image/png"; blob_bytes := [Byte.x2a] |})];
     trace := [] |}.

Definition example_processed : Store Registry :=
  Eval vm_compute in snd (processAll example_store).

Definition example_downloaded : Store Registry :=
  Eval vm_compute in snd (downloadAll example_processed).

(** The small browser for the rest of the page.  The size of an image is
    read off the first two bytes of its blob; the random string carries the
    number of URLs handed out so far; a revoked URL stays in the registry
    under the empty key, so it is never handed out again. *)

Definition blob_size (b : Blob) : N * N :=
  match blob_bytes b with
  | w :: h :: _ => (Byte.to_N w, Byte.to_N h)
  | _ => (0%N, 0%N)
  end.

#[export] Instance example_platform : PagePlatform Registry := {|
  Image_size src reg :=
    match registry_lookup src reg with
    | Some b => blob_size b
    | None => (0%N, 0%N)
    end;
  Math_random_toString36 reg := (("0.k3x9q" +:+ pretty (length reg))%string, reg);
  URL_revokeObjectURL url reg :=
    map (fun entry => if String.eqb (fst entry) url
                      then (""%string, snd entry) else entry) reg
|}.

(** A browser that is offline: every fetch is rejected. *)
#[export] Instance offline_browser : Browser unit := {|
  URL_createObjectURL b w := ("blob:offline"%string, w);
  Image_load src w := (true, w);
  canvas_getContext width height w := (true, w);
  canvas_toBlob src width height mime w :=
    (Some {| blob_type := mime; blob_bytes := [Byte.x2a] |}, w);
  window_fetch url w := (inl (MkError "Failed to fetch"), w);
  Response_blob response w :=
    (match response with MkResponse _ body => inr body end, w);
  JSZip_generateAsync zip w :=
    (inr {| blob_type := "application/zip"; blob_bytes := [] |}, w);
  link_click href download w := (tt, w)
|}.

Definition example_offline : Store unit :=
  {| images := [with_status mask_image error; ready_image];
     isProcessing := false; world := tt; trace := [] |}.

(** Three done images: two whose files have the same name, and one whose
    processed URL is the empty string. *)
Definition first_mask : ImageFile :=
  {| id := "m1"; file := MkFile "mask.png" "image/png" [Byte.x01];
     originalWidth := 2; originalHeight := 2; targetWidth := 2; targetHeight := 2;
     previewUrl := "blob:preview-m1"; processedUrl := Some "blob:0"%string;
     status := done |}.

Definition second_mask : ImageFile :=
  {| id := "m2"; file := MkFile "mask.png" "image/png" [Byte.x02];
     originalWidth := 1; originalHeight := 1; targetWidth := 1; targetHeight := 1;
     previewUrl := "blob:preview-m2"; processedUrl := Some "blob:1"%string;
     status := done |}.

Definition blank_url_image : ImageFile :=
  {| id := "m3"; file := MkFile "icon.png" "image/png" [Byte.x03];
     originalWidth := 4; originalHeight := 4; targetWidth := 4; targetHeight := 4;
     previewUrl := "blob:preview-m3"; processedUrl := Some ""%string;
     status := done |}.

Definition first_mask_blob : Blob := {| blob_type := "image/png"; blob_bytes := [Byte.x0a] |}.

Definition second_mask_blob : Blob := {| blob_type := "image/png"; blob_bytes := [Byte.x0b] |}.

Definition example_same_name : Store Registry :=
  {| images := [first_mask; second_mask; blank_url_image];
     isProcessing := false;
     world := [("blob:1"%string, second_mask_blob); ("blob:0"%string, first_mask_blob)];
     trace := [] |}.


Definition example_page : Page Registry :=
  {| app := example_store; revoked := []; console := [] |}.

(** Four dropped files: a 33x35 image, a text file, an image file with no
    bytes, and a 2x2 mask. *)
Definition example_files : list File :=
  [ MkFile "photo.png" "image/png" [Byte.x21; Byte.x23; Byte.xff];
    MkFile "notes.txt" "text/plain" [Byte.x68; Byte.x69];
    MkFile "empty.png" "image/png" [];
    MkFile "thin.png" "image/png" [Byte.x02; Byte.x02] ].

Definition example_page_loaded : Page Registry :=
  Eval vm_compute in snd (handleFiles (Some example_files) example_page).

(** Two images that were given the same id. *)
Definition example_twins : Page Registry :=
  {| app := {| images := [with_processed mask_image "blob:7" done;
                          ready_image;
                          with_status mask_image pending];
               isProcessing := false; world := []; trace := [] |};
     revoked := []; console := [] |}.

(** A done image whose processed URL is not registered. *)
Definition example_stale : Store Registry :=
  {| images := [ready_image; with_processed mask_image "blob:9" done];
     isProcessing := false;
     world := [("blob:0"%string, {| blob_type := "image/png"; blob_bytes := [Byte.x2a] |})];
     trace := [] |}.

(** ** Properties of the rounding policy *)

Ltac euclid := Z.to_euclidean_division_equations; lia.

Ltac unfold_round :=
  unfold calculateTargetDimension;
  repeat match goal with
         | |- context [?a <=? ?b] => destruct (Z.leb_spec a b)
         end.

Lemma calculateTargetDimension_small (val : Z) :
  val <= 2 -> calculateTargetDimension val = val.
Proof. intros H. unfold calculateTargetDimension. now rewrite (proj2 (Z.leb_le val 2) H). Qed.

Lemma calculateTargetDimension_large (val : Z) :
  2 < val ->
  calculateTargetDimension val =
    if Z.rem val 4 <=? 2 then val - Z.rem val 4 else val + (4 - Z.rem val 4).
Proof.
  intros H. unfold calculateTargetDimension.
  destruct (Z.leb_spec val 2); [lia | reflexivity].
Qed.

Lemma calculateTargetDimension_call_value {S : Type} (val : Z) (s : S) :
  calculateTargetDimension_call val s = (Normal (calculateTargetDimension val), s).
Proof.
  unfold calculateTargetDimension_call, calculateTargetDimension, ret.
  destruct (val <=? 2); [reflexivity |].
  cbv zeta. destruct (Z.rem val 4 <=? 2); reflexivity.
Qed.

Lemma calculateTargetDimension_aligned (val : Z) :
  2 < val -> (4 | calculateTargetDimension val).
Proof.
  intros H. rewrite calculateTargetDimension_large by assumption.
  destruct (Z.leb_spec (Z.rem val 4) 2).
  - exists (Z.quot val 4). euclid.
  - exists (Z.quot val 4 + 1). euclid.
Qed.

Lemma calculateTargetDimension_fixes_multiples (val : Z) :
  0 <= val -> (4 | val) -> calculateTargetDimension val = val.
Proof.
  intros H0 [k Hk]. unfold_round; euclid.
Qed.

(** C1. For every integer [val >= 0] the result follows the two-branch
    policy: [val] itself when [val <= 2]; otherwise, with [rem = val mod 4],
    [val] when [rem = 0], [val - rem] when [rem] is 1 or 2, and
    [val + (4 - rem)] when [rem = 3]. *)
Theorem calculateTargetDimension_policy (val : Z) :
  0 <= val ->
  (val <= 2 -> calculateTargetDimension val = val) /\
  (2 < val ->
   let rem := val mod 4 in
   (rem = 0 -> calculateTargetDimension val = val) /\
   (rem = 1 \/ rem = 2 -> calculateTargetDimension val = val - rem) /\
   (rem = 3 -> calculateTargetDimension val = val + (4 - rem))).
Proof.
  intros Hnn. split.
  - apply calculateTargetDimension_small.
  - intros Hgt rem. subst rem.
    rewrite calculateTargetDimension_large by assumption.
    rewrite Z.rem_mod_nonneg by lia.
    destruct (Z.leb_spec (val mod 4) 2); repeat split; intros; lia.
Qed.

Lemma calculateTargetDimension_policy_witness :
  0 <= 35 /\ calculateTargetDimension 35 = 35 + (4 - 35 mod 4).
Proof.
  split; [lia |].
  apply (calculateTargetDimension_policy 35); [lia | lia | reflexivity].
Defined.

(** C2 does not hold as stated: on a negative argument the call completes
    normally, here [-1] returns [-1]; nothing is thrown. *)
Lemma negative_input_returns_normally :
  calculateTargetDimension_call (-1) tt = (Normal (-1), tt) /\
  ~ (forall val : Z, val < 0 ->
       exists e, fst (calculateTargetDimension_call val tt) = Throw e).
Proof.
  split; [reflexivity |].
  intros H. destruct (H (-1) ltac:(lia)) as [e He]. discriminate He.
Qed.

(** C2, amended. For every negative integer the call returns its argument
    unchanged: the [val <= 2] branch takes it, and no error is signalled. *)
Theorem calculateTargetDimension_negative {S : Type} (val : Z) (s : S) :
  val < 0 -> calculateTargetDimension_call val s = (Normal val, s).
Proof.
  intros H. rewrite calculateTargetDimension_call_value.
  rewrite calculateTargetDimension_small by lia. reflexivity.
Qed.

Lemma calculateTargetDimension_negative_witness :
  -1 < 0 /\ calculateTargetDimension_call (-1) tt = (Normal (-1), tt).
Proof.
  split; [lia |].
  apply (calculateTargetDimension_negative (-1) tt). lia.
Defined.

(** C3. For every integer [val >= 0] the result is non-negative, and for
    every [val > 2] it is divisible by 4. *)
Theorem calculateTargetDimension_nonneg_aligned (val : Z) :
  0 <= val ->
  0 <= calculateTargetDimension val /\
  (2 < val -> (4 | calculateTargetDimension val)).
Proof.
  intros Hnn. split.
  - unfold_round; euclid.
  - apply calculateTargetDimension_aligned.
Qed.

Lemma calculateTargetDimension_nonneg_aligned_witness :
  0 <= 35 /\ 0 <= calculateTargetDimension 35 /\ (4 | calculateTargetDimension 35).
Proof.
  split; [lia |].
  destruct (calculateTargetDimension_nonneg_aligned 35 ltac:(lia)) as [Hnn Hdiv].
  split; [exact Hnn | apply Hdiv; lia].
Defined.

(** C4. The policy is idempotent: for every integer [val >= 0], rounding the
    rounded value gives the rounded value. *)
Theorem calculateTargetDimension_idempotent (val : Z) :
  0 <= val ->
  calculateTargetDimension (calculateTargetDimension val) = calculateTargetDimension val.
Proof.
  intros Hnn. destruct (Z.le_gt_cases val 2) as [Hle | Hgt].
  - now rewrite !calculateTargetDimension_small
      by (rewrite ?calculateTargetDimension_small; lia).
  - apply calculateTargetDimension_fixes_multiples.
    + unfold_round; euclid.
    + now apply calculateTargetDimension_aligned.
Qed.

Lemma calculateTargetDimension_idempotent_witness :
  0 <= 35 /\
  calculateTargetDimension (calculateTargetDimension 35) = calculateTargetDimension 35.
Proof.
  split; [lia |].
  apply (calculateTargetDimension_idempotent 35). lia.
Defined.

(** C5. For every integer [val > 2] the adjustment is bounded:
    [|result - val| <= 2]; the result is at most 2 below [val] and at most 1
    above it. *)
Theorem calculateTargetDimension_adjustment (val : Z) :
  2 < val ->
  Z.abs (calculateTargetDimension val - val) <= 2 /\
  val - 2 <= calculateTargetDimension val <= val + 1.
Proof.
  intros Hgt. unfold_round; euclid.
Qed.

Lemma calculateTargetDimension_adjustment_witness :
  2 < 34 /\
  Z.abs (calculateTargetDimension 34 - 34) <= 2 /\
  34 - 2 <= calculateTargetDimension 34 <= 34 + 1.
Proof.
  split; [lia |].
  apply (calculateTargetDimension_adjustment 34). lia.
Defined.

(** C6. The test vectors: 0, 1 and 2 are kept; 33 and 34 go to 32; 35, 36 and
    37 go to 36. *)
Theorem calculateTargetDimension_vectors :
  calculateTargetDimension 0 = 0 /\
  calculateTargetDimension 1 = 1 /\
  calculateTargetDimension 2 = 2 /\
  calculateTargetDimension 33 = 32 /\
  calculateTargetDimension 34 = 32 /\
  calculateTargetDimension 35 = 36 /\
  calculateTargetDimension 36 = 36 /\
  calculateTargetDimension 37 = 36.
Proof. repeat split; reflexivity. Qed.

(** C8. The call is pure and deterministic: run from any two stores with the
    same argument it returns the same value, and it leaves each store as it
    found it. *)
Theorem calculateTargetDimension_pure {S : Type} (val : Z) (s1 s2 : S) :
  fst (calculateTargetDimension_call val s1) = fst (calculateTargetDimension_call val s2) /\
  snd (calculateTargetDimension_call val s1) = s1 /\
  snd (calculateTargetDimension_call val s2) = s2.
Proof.
  rewrite !calculateTargetDimension_call_value. repeat split.
Qed.

(** ** Properties of the batch handlers *)

Section HandlerProperties.

Context {W : Type} `{Browser W}.

Implicit Types (st : Store W) (img : ImageFile) (upd : list ImageFile).

Lemma bind_Normal {A B : Type} (m : M (Store W) A) (k : A -> M (Store W) B) st a st' :
  m st = (Normal a, st') -> bind m k st = k a st'.
Proof. intros E. unfold bind. now rewrite E. Qed.

Lemma bind_Throw {A B : Type} (m : M (Store W) A) (k : A -> M (Store W) B) st e st' :
  m st = (Throw e, st') -> bind m k st = (Throw e, st').
Proof. intros E. unfold bind. now rewrite E. Qed.

(** A platform call returns, keeps the React state, and adds one event. *)
Lemma call_spec {R : Type} (op : W -> R * W) (ev : R -> Event) st :
  exists r st',
    call op ev st = (Normal r, st') /\
    images st' = images st /\ isProcessing st' = isProcessing st /\
    trace st' = trace st ++ [ev r].
Proof.
  unfold call. destruct (op (world st)) as [r w']. now exists r; eexists.
Qed.

(** The promise of [resizeImage] settles, and the call leaves the React
    state alone. *)
Lemma resizeImage_settles (f : File) (w h : Z) st :
  exists r st',
    resizeImage f w h st = (r, st') /\ r <> OutOfFuel /\
    images st' = images st /\ isProcessing st' = isProcessing st.
Proof.
  unfold resizeImage.
  destruct (call_spec (URL_createObjectURL (File_as_Blob f))
              (CreateObjectURL (File_as_Blob f)) st)
    as (src & st1 & E1 & I1 & P1 & _).
  rewrite (bind_Normal _ _ _ _ _ E1).
  destruct (call_spec (Image_load src) (ImageLoad src) st1)
    as (loaded & st2 & E2 & I2 & P2 & _).
  rewrite (bind_Normal _ _ _ _ _ E2).
  destruct loaded; cbn [negb].
  2: { eexists _, _. split; [reflexivity |]. repeat split; [discriminate | congruence ..]. }
  destruct (call_spec (canvas_getContext w h) (GetContext w h) st2)
    as (ctx & st3 & E3 & I3 & P3 & _).
  rewrite (bind_Normal _ _ _ _ _ E3).
  destruct ctx; cbn [negb].
  2: { eexists _, _. split; [reflexivity |]. repeat split; [discriminate | congruence ..]. }
  destruct (call_spec (canvas_toBlob src w h (type f)) (ToBlob src w h (type f)) st3)
    as (blob & st4 & E4 & I4 & P4 & _).
  rewrite (bind_Normal _ _ _ _ _ E4).
  destruct blob as [b |]; eexists _, _; (split; [reflexivity |]);
    repeat split; (discriminate || congruence).
Qed.

Lemma Status_eqb_eq (a b : Status) : Status_eqb a b = true <-> a = b.
Proof. destruct a, b; split; intros E; (reflexivity || discriminate E). Qed.

Lemma Status_eqb_neq (a b : Status) : Status_eqb a b = false <-> a <> b.
Proof. destruct a, b; split; intros E; (reflexivity || discriminate E || congruence). Qed.

(** One iteration rewrites slot [i] only, by the outcome of its own image. *)
Lemma processAll_body_spec (i : nat) img upd st :
  upd !! i = Some img -> images st = upd ->
  exists img' st',
    processAll_body i img upd st = (Normal (<[i:=img']> upd), st') /\
    images st' = <[i:=img']> upd /\
    isProcessing st' = isProcessing st /\
    item_outcome img img'.
Proof.
  intros Hi Himgs. unfold processAll_body.
  destruct (Status_eqb (status img) done) eqn:Ed.
  { exists img, st. rewrite list_insert_id by assumption.
    repeat split; [assumption |]. left. split; [now apply Status_eqb_eq | reflexivity]. }
  apply Status_eqb_neq in Ed. cbv zeta.
  set (upd1 := <[i:=with_status img processing]> upd).
  set (st1 := {| images := upd1; isProcessing := isProcessing st;
                 world := world st; trace := trace st |}).
  unfold try_catch.
  rewrite (bind_Normal (setImages upd1) _ st tt st1 eq_refl).
  destruct (resizeImage_settles (file img) (targetWidth img) (targetHeight img) st1)
    as (r & st2 & E2 & Hr & I2 & P2).
  destruct r as [blob | e |]; [| | congruence].
  - rewrite (bind_Normal _ _ _ _ _ E2).
    destruct (call_spec (URL_createObjectURL blob) (CreateObjectURL blob) st2)
      as (url & st3 & E3 & I3 & P3 & _).
    rewrite (bind_Normal _ _ _ _ _ E3).
    assert (Hcur : upd1 !! i = Some (with_status img processing)).
    { apply list_lookup_insert_eq. eapply lookup_lt_Some; eassumption. }
    rewrite Hcur. cbn [default].
    change (with_processed (with_status img processing) url done)
      with (with_processed img url done).
    subst upd1. rewrite list_insert_insert_eq.
    exists (with_processed img url done). eexists.
    split; [reflexivity |]. cbn. repeat split; [now rewrite P3, P2 |].
    right. split; [assumption |]. right. exists url. split; [| reflexivity].
    exists st1, blob, st2. exact E2.
  - rewrite (bind_Throw _ _ _ _ _ E2).
    subst upd1. rewrite list_insert_insert_eq.
    exists (with_status img error). eexists.
    split; [reflexivity |]. cbn. repeat split; [now rewrite P2 |].
    right. split; [assumption |]. left. split; [| reflexivity].
    exists st1, e, st2. exact E2.
Qed.

(** The loop from index [i] on, with enough fuel for the slots that are left:
    it ends normally, keeps the slots before [i], and gives every later slot
    the outcome of its own image. *)
Lemma processAll_loop_spec (fuel i : nat) : forall upd st,
  (length upd - i <= fuel)%nat -> images st = upd ->
  exists upd' st',
    processAll_loop fuel i upd st = (Normal upd', st') /\
    images st' = upd' /\
    isProcessing st' = isProcessing st /\
    length upd' = length upd /\
    (forall j, (j < i)%nat -> upd' !! j = upd !! j) /\
    (forall j img, (i <= j)%nat -> upd !! j = Some img ->
       exists img', upd' !! j = Some img' /\ item_outcome img img').
Proof.
  revert i. induction fuel as [| fuel IH]; intros i upd st Hfuel Himgs.
  - destruct (upd !! i) as [img |] eqn:Hi.
    { apply lookup_lt_Some in Hi. lia. }
    exists upd, st. cbn. rewrite Hi. repeat split; [assumption |].
    intros j img Hj Hl. apply lookup_lt_Some in Hl.
    apply lookup_ge_None in Hi. lia.
  - cbn [processAll_loop]. destruct (upd !! i) as [img |] eqn:Hi.
    2: { exists upd, st. repeat split; [assumption |].
         intros j img Hj Hl. apply lookup_lt_Some in Hl.
         apply lookup_ge_None in Hi. lia. }
    destruct (processAll_body_spec i img upd st Hi Himgs)
      as (img' & st1 & E1 & I1 & P1 & O1).
    rewrite (bind_Normal _ _ _ _ _ E1).
    pose proof (lookup_lt_Some _ _ _ Hi) as Hlt.
    destruct (IH (S i) (<[i:=img']> upd) st1) as (upd' & st' & E & I & P & L & Hpre & Hpost).
    { rewrite length_insert. lia. }
    { assumption. }
    exists upd', st'. rewrite length_insert in L.
    split; [assumption |]. split; [assumption |]. split; [congruence |].
    split; [assumption |]. split.
    + intros j Hj. rewrite Hpre by lia. apply list_lookup_insert_ne. lia.
    + intros j img0 Hj Hl. destruct (decide (j = i)) as [-> | Hne].
      * rewrite Hpre by lia. rewrite list_lookup_insert_eq by assumption.
        exists img'. split; [reflexivity |]. congruence.
      * apply Hpost; [lia |]. rewrite list_lookup_insert_ne by lia. assumption.
Qed.

(** A batch run ends normally and gives every image the outcome of its own
    pipeline. *)
Lemma processAll_outcomes st :
  exists st',
    processAll st = (Normal tt, st') /\
    length (images st') = length (images st) /\
    forall j img, images st !! j = Some img ->
      exists img', images st' !! j = Some img' /\ item_outcome img img'.
Proof.
  unfold processAll.
  rewrite (bind_Normal get_images _ st (images st) st eq_refl).
  destruct (Nat.eqb_spec (length (images st)) 0) as [Hz | Hnz].
  { exists st. repeat split. intros j img Hj. apply lookup_lt_Some in Hj. lia. }
  set (st1 := {| images := images st; isProcessing := true;
                 world := world st; trace := trace st |}).
  rewrite (bind_Normal (setIsProcessing true) _ st tt st1 eq_refl). cbv zeta.
  destruct (processAll_loop_spec (length (images st)) 0 (images st) st1)
    as (upd' & st2 & E & I & P & L & _ & Hpost); [lia | reflexivity |].
  rewrite (bind_Normal _ _ _ _ _ E).
  eexists. split; [reflexivity |]. cbn. rewrite I. split; [assumption |].
  intros j img Hj. apply (Hpost j img); [lia | assumption].
Qed.


Lemma resize_never_both img :
  (forall s, resize_rejects img s) -> (exists s, resize_resolves img s) -> False.
Proof.
  intros Hall (s & blob & st' & En). destruct (Hall s) as (e & st'' & Er). congruence.
Qed.

(** Over images that are all done the loop makes no call and no update. *)
Lemma processAll_loop_all_done (fuel i : nat) : forall upd st,
  (length upd - i <= fuel)%nat ->
  Forall (fun img => status img = done) upd ->
  processAll_loop fuel i upd st = (Normal upd, st).
Proof.
  revert i. induction fuel as [| fuel IH]; intros i upd st Hfuel Hdone; cbn.
  - destruct (upd !! i) as [img |] eqn:Hi; [| reflexivity].
    apply lookup_lt_Some in Hi. lia.
  - destruct (upd !! i) as [img |] eqn:Hi; [| reflexivity].
    assert (Hs : status img = done).
    { rewrite Forall_forall in Hdone. apply Hdone.
      eapply list_elem_of_lookup_2. exact Hi. }
    unfold processAll_body. rewrite (proj2 (Status_eqb_eq _ _) Hs).
    rewrite (bind_Normal _ _ st upd st eq_refl).
    apply IH; [| assumption]. apply lookup_lt_Some in Hi. lia.
Qed.

(** One iteration, by the outcome of the resample it makes. *)
Lemma processAll_body_precise (i : nat) img upd st :
  upd !! i = Some img -> images st = upd ->
  exists img' st',
    processAll_body i img upd st = (Normal (<[i:=img']> upd), st') /\
    images st' = <[i:=img']> upd /\
    ((status img = done /\ img' = img) \/
     (status img <> done /\
      let marked := snd (setImages (<[i:=with_status img processing]> upd) st) in
      ((exists e s',
          resizeImage (file img) (targetWidth img) (targetHeight img) marked
            = (Throw e, s') /\
          img' = with_status img error) \/
       (exists blob s' url,
          resizeImage (file img) (targetWidth img) (targetHeight img) marked
            = (Normal blob, s') /\
          img' = with_processed img url done)))).
Proof.
  intros Hi Himgs. unfold processAll_body.
  destruct (Status_eqb (status img) done) eqn:Ed.
  { exists img, st. rewrite list_insert_id by assumption.
    repeat split; [assumption |]. left. split; [now apply Status_eqb_eq | reflexivity]. }
  apply Status_eqb_neq in Ed. cbv zeta.
  set (upd1 := <[i:=with_status img processing]> upd).
  set (st1 := snd (setImages upd1 st)).
  unfold try_catch.
  rewrite (bind_Normal (setImages upd1) _ st tt st1 eq_refl).
  destruct (resizeImage_settles (file img) (targetWidth img) (targetHeight img) st1)
    as (r & st2 & E2 & Hr & I2 & P2).
  destruct r as [blob | e |]; [| | congruence].
  - rewrite (bind_Normal _ _ _ _ _ E2).
    destruct (call_spec (URL_createObjectURL blob) (CreateObjectURL blob) st2)
      as (url & st3 & E3 & I3 & P3 & _).
    rewrite (bind_Normal _ _ _ _ _ E3).
    assert (Hcur : upd1 !! i = Some (with_status img processing)).
    { apply list_lookup_insert_eq. eapply lookup_lt_Some; eassumption. }
    rewrite Hcur. cbn [default].
    change (with_processed (with_status img processing) url done)
      with (with_processed img url done).
    subst upd1. rewrite list_insert_insert_eq.
    exists (with_processed img url done). eexists.
    split; [reflexivity |]. split; [reflexivity |].
    right. split; [assumption |]. right. exists blob, st2, url.
    split; [exact E2 | reflexivity].
  - rewrite (bind_Throw _ _ _ _ _ E2).
    subst upd1. rewrite list_insert_insert_eq.
    exists (with_status img error). eexists.
    split; [reflexivity |]. split; [reflexivity |].
    right. split; [assumption |]. left. exists e, st2.
    split; [exact E2 | reflexivity].
Qed.

(** The loop from slot [i] on, reached by the iterations before [i]: every
    later slot ends by the outcome of the resample made for it. *)
Lemma processAll_loop_precise (upd0 : list ImageFile) (s0 : Store W) (fuel : nat) :
  forall (i : nat) upd st,
    processAll_upto i upd0 s0 = (Normal upd, st) ->
    length upd = length upd0 ->
    (forall j, (i <= j)%nat -> upd !! j = upd0 !! j) ->
    images st = upd ->
    (length upd - i <= fuel)%nat ->
    exists upd' st',
      processAll_loop fuel i upd st = (Normal upd', st') /\
      images st' = upd' /\
      length upd' = length upd0 /\
      (forall j, (j < i)%nat -> upd' !! j = upd !! j) /\
      (forall j img, (i <= j)%nat -> upd0 !! j = Some img ->
         exists img', upd' !! j = Some img' /\ slot_outcome_from upd0 s0 j img img').
Proof.
  induction fuel as [| fuel IH]; intros i upd st Hupto Hlen Hrest Himgs Hfuel.
  - destruct (upd !! i) as [img |] eqn:Hi.
    { apply lookup_lt_Some in Hi. lia. }
    exists upd, st. cbn. rewrite Hi. repeat split; [assumption | assumption |].
    intros j img Hj Hl. rewrite <- Hrest in Hl by assumption.
    apply lookup_lt_Some in Hl. apply lookup_ge_None in Hi. lia.
  - cbn [processAll_loop]. destruct (upd !! i) as [img |] eqn:Hi.
    2: { exists upd, st. repeat split; [assumption | assumption |].
         intros j img Hj Hl. rewrite <- Hrest in Hl by assumption.
         apply lookup_lt_Some in Hl. apply lookup_ge_None in Hi. lia. }
    destruct (processAll_body_precise i img upd st Hi Himgs)
      as (img' & st1 & E1 & I1 & O1).
    rewrite (bind_Normal _ _ _ _ _ E1).
    pose proof (lookup_lt_Some _ _ _ Hi) as Hlt.
    assert (Hstore : resample_store_from upd0 s0 i =
                     snd (setImages (<[i:=with_status img processing]> upd) st)).
    { unfold resample_store_from. now rewrite Hupto, Hi. }
    assert (Hnext : processAll_upto (S i) upd0 s0 = (Normal (<[i:=img']> upd), st1)).
    { cbn [processAll_upto]. rewrite (bind_Normal _ _ _ _ _ Hupto). now rewrite Hi. }
    destruct (IH (S i) (<[i:=img']> upd) st1 Hnext)
      as (upd' & st' & E & I & L & Hpre & Hpost).
    { now rewrite length_insert. }
    { intros j Hj. rewrite list_lookup_insert_ne by lia. apply Hrest. lia. }
    { assumption. }
    { rewrite length_insert. lia. }
    exists upd', st'.
    split; [assumption |]. split; [assumption |]. split; [assumption |]. split.
    + intros j Hj. rewrite Hpre by lia. apply list_lookup_insert_ne. lia.
    + intros j img0 Hj Hl. destruct (decide (j = i)) as [-> | Hne].
      * rewrite Hpre by lia. rewrite list_lookup_insert_eq by assumption.
        exists img'. split; [reflexivity |].
        assert (img0 = img) by (rewrite <- Hrest in Hl by lia; congruence). subst img0.
        unfold slot_outcome_from. rewrite Hstore. exact O1.
      * apply Hpost; [lia | assumption].
Qed.

(** A batch run ends normally and gives every slot the outcome of the
    resample the run makes for it. *)
Lemma processAll_precise st :
  exists st',
    processAll st = (Normal tt, st') /\
    length (images st') = length (images st) /\
    forall j img, images st !! j = Some img ->
      exists img', images st' !! j = Some img' /\
        slot_outcome_from (images st) (snd (setIsProcessing true st)) j img img'.
Proof.
  unfold processAll.
  rewrite (bind_Normal get_images _ st (images st) st eq_refl).
  destruct (Nat.eqb_spec (length (images st)) 0) as [Hz | Hnz].
  { exists st. repeat split. intros j img Hj. apply lookup_lt_Some in Hj. lia. }
  set (st1 := snd (setIsProcessing true st)).
  rewrite (bind_Normal (setIsProcessing true) _ st tt st1 eq_refl). cbv zeta.
  destruct (processAll_loop_precise (images st) st1 (length (images st))
              0 (images st) st1)
    as (upd' & st2 & E & I & L & _ & Hpost);
    [reflexivity | reflexivity | reflexivity | reflexivity | lia |].
  rewrite (bind_Normal _ _ _ _ _ E).
  eexists. split; [reflexivity |]. cbn. rewrite I. split; [assumption |].
  intros j img Hj. apply (Hpost j img); [lia | assumption].
Qed.

(** C7. In a batch run a failure while processing one image, that is the
    rejection of the resample the run makes for its slot, marks that image
    alone: its status becomes error and nothing else of it changes.  No
    sibling is kept from being processed: the run ends normally with every
    image in its slot; a sibling that is done stays as it is; any other
    sibling ends done or in error by the outcome of its own resample alone,
    done with a processed URL exactly when that resample resolves, in error
    exactly when it is rejected. *)
Theorem processAll_failure_isolated st (i : nat) (bad : ImageFile) (e : Error) :
  images st !! i = Some bad ->
  status bad <> done ->
  resample_outcome st i bad = Throw e ->
  exists st',
    processAll st = (Normal tt, st') /\
    length (images st') = length (images st) /\
    (exists bad',
       images st' !! i = Some bad' /\
       status bad' = error /\
       same_source bad bad' /\
       processedUrl bad' = processedUrl bad) /\
    forall j img, j <> i -> images st !! j = Some img ->
      exists img',
        images st' !! j = Some img' /\
        same_source img img' /\
        (status img = done -> img' = img) /\
        (status img <> done ->
         (status img' = done \/ status img' = error) /\
         (status img' = done <-> exists blob, resample_outcome st j img = Normal blob) /\
         (status img' = error <-> exists e', resample_outcome st j img = Throw e') /\
         (status img' = done -> exists url, processedUrl img' = Some url)).
Proof.
  intros Hi Hnd Hrej.
  destruct (processAll_precise st) as (st' & E & L & Hout).
  exists st'. split; [assumption |]. split; [assumption |]. split.
  - destruct (Hout i bad Hi) as (bad' & Hl & Ho). exists bad'.
    split; [assumption |].
    destruct Ho as [[Hd _] | [_ [(e' & s' & Er & ->) | (blob & s' & url & En & ->)]]].
    + contradiction.
    + repeat split.
    + exfalso. unfold resample_outcome, resample_store in Hrej.
      rewrite En in Hrej. discriminate Hrej.
  - intros j img Hne Hj. destruct (Hout j img Hj) as (img' & Hl & Ho).
    exists img'. split; [assumption |].
    unfold resample_outcome, resample_store.
    destruct Ho as [[Hd ->] | [Hnd' [(e' & s' & Er & ->) | (blob & s' & url & En & ->)]]].
    + split; [repeat split |]. split; [reflexivity |]. intros Hnd'. contradiction.
    + split; [repeat split |]. split; [intros Hd; contradiction |]. intros _.
      rewrite Er. cbn. split; [now right |]. split; [| split].
      * split; [discriminate | intros (blob & Hb); discriminate Hb].
      * split; [intros _; now exists e' | reflexivity].
      * discriminate.
    + split; [repeat split |]. split; [intros Hd; contradiction |]. intros _.
      rewrite En. cbn. split; [now left |]. split; [| split].
      * split; [intros _; now exists blob | reflexivity].
      * split; [discriminate | intros (e' & He'); discriminate He'].
      * intros _. now exists url.
Qed.

(** C9. A batch run leaves every image that is already done unchanged: the
    entry is skipped, so after the run the same record is in its slot; when
    all images are done the run makes no platform call and no update. *)
Theorem processAll_keeps_done st (i : nat) img :
  images st !! i = Some img ->
  status img = done ->
  exists st',
    processAll st = (Normal tt, st') /\
    images st' !! i = Some img /\
    (Forall (fun x => status x = done) (images st) ->
     images st' = images st /\ world st' = world st /\ trace st' = trace st).
Proof.
  intros Hi Hd.
  destruct (processAll_outcomes st) as (st' & E & L & Hout).
  exists st'. split; [assumption |]. split.
  - destruct (Hout i img Hi) as (img' & Hl & [[_ ->] | [Hnd _]]);
      [assumption | contradiction].
  - intros Hall. revert E. unfold processAll.
    rewrite (bind_Normal get_images _ st (images st) st eq_refl).
    destruct (Nat.eqb_spec (length (images st)) 0) as [Hz | Hnz].
    { intros [= <-]. repeat split. }
    set (st1 := {| images := images st; isProcessing := true;
                   world := world st; trace := trace st |}).
    rewrite (bind_Normal (setIsProcessing true) _ st tt st1 eq_refl). cbv zeta.
    rewrite (bind_Normal _ _ _ _ _
               (processAll_loop_all_done (length (images st)) 0 (images st) st1
                  ltac:(lia) Hall)).
    intros [= <-]. repeat split.
Qed.

(** An awaited platform call: one event, and the rejection thrown. *)
Lemma await_call_spec {A : Type} (op : W -> (Error + A) * W) (ev : Error + A -> Event) st :
  exists r st',
    await (call op ev) st =
      (match r with inr a => Normal a | inl e => Throw e end, st') /\
    images st' = images st /\ isProcessing st' = isProcessing st /\
    trace st' = trace st ++ [ev r].
Proof.
  destruct (call_spec op ev st) as (r & st' & E & I & P & T).
  exists r, st'. unfold await. rewrite (bind_Normal _ _ _ _ _ E).
  destruct r; repeat split; assumption.
Qed.

Lemma Fetched_names (imgs : list ImageFile) (evs : list Event)
    (calls : list (string * Blob)) :
  Fetched imgs evs calls ->
  map fst calls = map (fun img => name (file img)) imgs.
Proof. induction 1; cbn; congruence. Qed.

(** The [for ... of] loop makes one [file] call per image, in order, and only
    fetches: it clicks no link and generates no archive; when it throws, the
    last call it made is the one that was rejected. *)
Lemma downloadAll_loop_spec (imgs : list ImageFile) : forall (zip : JSZip) st,
  exists r st' evs,
    downloadAll_loop imgs zip st = (r, st') /\
    images st' = images st /\ isProcessing st' = isProcessing st /\
    trace st' = trace st ++ evs /\
    Forall (fun ev => is_Click ev = false) evs /\
    match r with
    | Normal zip' => exists calls, Fetched imgs evs calls /\ zip' = JSZip_files calls zip
    | Throw e => exists evs0 failed, evs = evs0 ++ [failed] /\ rejected_call failed e
    | OutOfFuel => False
    end.
Proof.
  induction imgs as [| img rest IH]; intros zip st.
  - exists (Normal zip), st, []. cbn. rewrite !app_nil_r.
    repeat split; [constructor |]. exists []. split; [constructor | reflexivity].
  - cbn [downloadAll_loop]. cbv zeta.
    set (url := default "undefined"%string (processedUrl img)).
    destruct (await_call_spec (window_fetch url) (Fetch url) st)
      as (r1 & st1 & E1 & I1 & P1 & T1).
    destruct r1 as [e | response].
    { rewrite (bind_Throw _ _ _ _ _ E1).
      exists (Throw e), st1, [Fetch url (inl e)].
      split; [reflexivity |]. split; [assumption |]. split; [assumption |].
      split; [assumption |]. split; [repeat constructor |].
      exists [], (Fetch url (inl e)). split; reflexivity. }
    rewrite (bind_Normal _ _ _ _ _ E1).
    destruct (await_call_spec (Response_blob response) (ResponseBlob response) st1)
      as (r2 & st2 & E2 & I2 & P2 & T2).
    destruct r2 as [e | blob].
    { rewrite (bind_Throw _ _ _ _ _ E2).
      exists (Throw e), st2, [Fetch url (inr response); ResponseBlob response (inl e)].
      split; [reflexivity |]. split; [congruence |]. split; [congruence |].
      split; [rewrite T2, T1, <- app_assoc; reflexivity |].
      split; [repeat constructor |].
      exists [Fetch url (inr response)], (ResponseBlob response (inl e)).
      split; reflexivity. }
    rewrite (bind_Normal _ _ _ _ _ E2).
    destruct (IH (JSZip_file (name (file img)) blob zip) st2)
      as (r & st' & evs & E & I & P & T & Hev & Hr).
    exists r, st', (Fetch url (inr response) :: ResponseBlob response (inr blob) :: evs).
    split; [assumption |]. split; [congruence |]. split; [congruence |]. split.
    { rewrite T, T2, T1, <- !app_assoc. reflexivity. }
    split; [repeat constructor; assumption |].
    destruct r as [zip' | e |]; [| | assumption].
    + destruct Hr as (calls & HF & ->).
      exists ((name (file img), blob) :: calls). split.
      * subst url. now constructor.
      * reflexivity.
    + destruct Hr as (evs0 & failed & -> & Hrej).
      exists (Fetch url (inr response) :: ResponseBlob response (inr blob) :: evs0), failed.
      split; [reflexivity | assumption].
Qed.

Lemma isDoneImage_spec img :
  isDoneImage img = true <-> status img = done /\ truthy (processedUrl img) = true.
Proof.
  unfold isDoneImage. rewrite andb_true_iff, Status_eqb_eq. reflexivity.
Qed.

Lemma truthy_spec (o : option string) :
  truthy o = true <-> exists url, o = Some url /\ url <> ""%string.
Proof.
  split.
  - destruct o as [[| c url] |]; cbn; intros Ht; try discriminate Ht.
    eexists. split; [reflexivity | discriminate].
  - intros (url & -> & Hne). destruct url; [contradiction | reflexivity].
Qed.

Lemma JSZip_get_file (n m : string) (d : Blob) (zip : JSZip) :
  JSZip_get m (JSZip_file n d zip) =
    if String.eqb n m then Some d else JSZip_get m zip.
Proof.
  induction zip as [| [en ed] rest IH]; cbn; [reflexivity |].
  destruct (String.eqb_spec en n) as [-> | Hen]; cbn.
  - destruct (String.eqb n m); reflexivity.
  - rewrite IH. destruct (String.eqb_spec n m) as [-> | Hnm]; [| reflexivity].
    now rewrite (proj2 (String.eqb_neq en m) Hen).
Qed.

Lemma JSZip_get_snoc (n m : string) (d : Blob) (l : list (string * Blob)) :
  JSZip_get m (l ++ [(n, d)]) =
    match JSZip_get m l with
    | Some x => Some x
    | None => if String.eqb n m then Some d else None
    end.
Proof.
  induction l as [| [en ed] rest IH]; cbn; [reflexivity |].
  destruct (String.eqb en m); [reflexivity | exact IH].
Qed.

(** Under each name the archive holds the data of the last call for it. *)
Lemma JSZip_get_files (calls : list (string * Blob)) : forall (zip : JSZip) (m : string),
  JSZip_get m (JSZip_files calls zip) =
    match JSZip_get m (rev calls) with
    | Some d => Some d
    | None => JSZip_get m zip
    end.
Proof.
  induction calls as [| [n d] rest IH]; intros zip m; [reflexivity |].
  cbn [JSZip_files fold_left rev fst snd]. fold (JSZip_files rest (JSZip_file n d zip)).
  rewrite IH, JSZip_get_snoc, JSZip_get_file.
  destruct (JSZip_get m (rev rest)); [reflexivity |].
  destruct (String.eqb n m); reflexivity.
Qed.

Lemma JSZip_file_names (n m : string) (d : Blob) (zip : JSZip) :
  In m (map fst (JSZip_file n d zip)) <-> m = n \/ In m (map fst zip).
Proof.
  induction zip as [| [en ed] rest IH]; cbn.
  - split; [intros [<- | []]; now left | intros [-> | []]; now left].
  - destruct (String.eqb_spec en n) as [-> | Hen]; cbn.
    + split; [intros [<- | Hin]; [now left | right; now right] |
              intros [-> | [<- | Hin]]; [now left | now left | now right]].
    + rewrite IH. split.
      * intros [<- | [-> | Hin]]; [right; now left | now left | right; now right].
      * intros [-> | [<- | Hin]]; [right; now left | now left | right; now right].
Qed.

Lemma JSZip_file_NoDup (n : string) (d : Blob) (zip : JSZip) :
  List.NoDup (map fst zip) -> List.NoDup (map fst (JSZip_file n d zip)).
Proof.
  induction zip as [| [en ed] rest IH]; cbn; intros Hnd.
  - constructor; [intros [] | constructor].
  - inversion Hnd as [| x l Hnotin Hrest]; subst.
    destruct (String.eqb_spec en n) as [-> | Hen]; cbn.
    + now constructor.
    + constructor; [| now apply IH].
      rewrite JSZip_file_names. intros [-> | Hin]; [now apply Hen | now apply Hnotin].
Qed.

Lemma JSZip_files_NoDup (calls : list (string * Blob)) : forall zip : JSZip,
  List.NoDup (map fst zip) -> List.NoDup (map fst (JSZip_files calls zip)).
Proof.
  induction calls as [| [n d] rest IH]; intros zip Hnd; [exact Hnd |].
  cbn. apply IH. now apply JSZip_file_NoDup.
Qed.

Lemma JSZip_file_fresh (n : string) (d : Blob) (zip : JSZip) :
  ~ In n (map fst zip) -> JSZip_file n d zip = zip ++ [(n, d)].
Proof.
  induction zip as [| [en ed] rest IH]; cbn; intros Hfresh; [reflexivity |].
  destruct (String.eqb_spec en n) as [-> | Hen].
  - exfalso. apply Hfresh. now left.
  - f_equal. apply IH. intros Hin. apply Hfresh. now right.
Qed.

(** Calls under names that are all different, on an archive that has none of
    them, give one entry per call, in the order of the calls. *)
Lemma JSZip_files_distinct (calls : list (string * Blob)) : forall zip : JSZip,
  List.NoDup (map fst calls) ->
  (forall n, In n (map fst calls) -> ~ In n (map fst zip)) ->
  JSZip_files calls zip = zip ++ calls.
Proof.
  induction calls as [| [n d] rest IH]; intros zip Hnd Hfresh.
  - cbn. now rewrite app_nil_r.
  - cbn in *. inversion Hnd as [| x l Hnotin Hrest]; subst.
    rewrite (JSZip_file_fresh n d zip) by (apply Hfresh; now left).
    fold (JSZip_files rest (zip ++ [(n, d)])).
    rewrite IH; [now rewrite <- app_assoc | assumption |].
    intros m Hm. rewrite map_app, in_app_iff. cbn.
    intros [Hin | [<- | []]].
    + apply (Hfresh m); [now right | assumption].
    + now apply Hnotin.
Qed.

(** C10, amended. [downloadAll] takes exactly the images that are done and
    have a processed URL that is not the empty string; images in any other
    status are left out; when no image is done it returns at once: nothing is
    fetched, generated or clicked.  For each image it takes, in list order,
    it fetches the processed URL and makes one [zip.file] call with the
    image's original file name and the blob read.  The archive handed to
    [generateAsync] holds one entry per file name among them, with the data
    of the last image of that name; when the file names are all different it
    holds one entry per image, in order.  When the handler throws instead,
    the last platform call it made is the rejected one, and no link is
    clicked. *)
Theorem downloadAll_archive st (r : completion unit) st' :
  downloadAll st = (r, st') ->
  let doneImages := List.filter isDoneImage (images st) in
  (forall img, In img doneImages <->
     In img (images st) /\ status img = done /\
     exists url, processedUrl img = Some url /\ url <> ""%string) /\
  ((forall img, In img (images st) -> status img <> done) ->
   r = Normal tt /\ st' = st) /\
  (doneImages = [] -> r = Normal tt /\ st' = st) /\
  (doneImages <> [] ->
   exists evs, trace st' = trace st ++ evs /\
     ((exists fetches calls content href,
         r = Normal tt /\
         Fetched doneImages fetches calls /\
         map fst calls = map (fun img => name (file img)) doneImages /\
         let zip := JSZip_files calls new_JSZip in
         evs = fetches ++ [GenerateAsync zip (inr content);
                           CreateObjectURL content href;
                           Click href "unity_textures_resized.zip"] /\
         List.NoDup (map fst zip) /\
         (forall fileName, JSZip_get fileName zip = JSZip_get fileName (rev calls)) /\
         (List.NoDup (map fst calls) -> zip = calls)) \/
      (exists e evs0 failed,
         r = Throw e /\ evs = evs0 ++ [failed] /\ rejected_call failed e /\
         Forall (fun ev => is_Click ev = false) evs))).
Proof.
  intros E doneImages.
  assert (Hmem : forall img, In img doneImages <->
            In img (images st) /\ status img = done /\
            exists url, processedUrl img = Some url /\ url <> ""%string).
  { intros img. subst doneImages.
    rewrite filter_In, isDoneImage_spec, truthy_spec. reflexivity. }
  assert (Hempty : doneImages = [] -> r = Normal tt /\ st' = st).
  { intros Hnil. revert E. unfold downloadAll. cbv zeta.
    rewrite (bind_Normal get_images _ st (images st) st eq_refl).
    fold doneImages. rewrite Hnil. cbn. unfold ret. now intros [= <- <-]. }
  split; [exact Hmem |]. split; [| split; [exact Hempty |]].
  { intros Hnone. apply Hempty.
    destruct doneImages as [| img rest] eqn:Hd; [reflexivity |].
    exfalso. destruct (proj1 (Hmem img) (or_introl eq_refl)) as (Hin & Hs & _).
    exact (Hnone img Hin Hs). }
  intros Hne. revert E. unfold downloadAll. cbv zeta.
  rewrite (bind_Normal get_images _ st (images st) st eq_refl).
  fold doneImages.
  destruct (Nat.eqb_spec (length doneImages) 0) as [Hz | _].
  { destruct doneImages; [contradiction | discriminate Hz]. }
  destruct (downloadAll_loop_spec doneImages new_JSZip st)
    as (r1 & st1 & evs1 & E1 & _ & _ & T1 & Hev1 & Hr1).
  destruct r1 as [zip | e |]; [| | contradiction].
  2: { rewrite (bind_Throw _ _ _ _ _ E1). intros [= <- <-].
       exists evs1. split; [assumption |]. right.
       destruct Hr1 as (evs0 & failed & Hevs & Hrej).
       exists e, evs0, failed. repeat split; assumption. }
  rewrite (bind_Normal _ _ _ _ _ E1).
  destruct Hr1 as (calls & HF & ->).
  set (zip := JSZip_files calls new_JSZip).
  destruct (await_call_spec (JSZip_generateAsync zip) (GenerateAsync zip) st1)
    as (r2 & st2 & E2 & _ & _ & T2).
  destruct r2 as [e | content].
  { rewrite (bind_Throw _ _ _ _ _ E2). intros [= <- <-].
    exists (evs1 ++ [GenerateAsync zip (inl e)]). split.
    - rewrite T2, T1, <- app_assoc. reflexivity.
    - right. exists e, evs1, (GenerateAsync zip (inl e)).
      split; [reflexivity |]. split; [reflexivity |]. split; [reflexivity |].
      apply Forall_app. split; [assumption | repeat constructor]. }
  rewrite (bind_Normal _ _ _ _ _ E2).
  destruct (call_spec (URL_createObjectURL content) (CreateObjectURL content) st2)
    as (href & st3 & E3 & _ & _ & T3).
  rewrite (bind_Normal _ _ _ _ _ E3).
  destruct (call_spec (link_click href "unity_textures_resized.zip")
              (fun _ => Click href "unity_textures_resized.zip") st3)
    as ([] & st4 & E4 & _ & _ & T4).
  rewrite E4. intros [= <- <-].
  exists (evs1 ++ [GenerateAsync zip (inr content);
                   CreateObjectURL content href;
                   Click href "unity_textures_resized.zip"]).
  split.
  - rewrite T4, T3, T2, T1, <- !app_assoc. reflexivity.
  - left. exists evs1, calls, content, href.
    split; [reflexivity |]. split; [assumption |].
    split; [eapply Fetched_names; eassumption |]. cbv zeta. fold zip.
    split; [reflexivity |]. split.
    { subst zip. apply JSZip_files_NoDup. constructor. }
    split.
    { intros fileName. subst zip. rewrite JSZip_get_files.
      now destruct (JSZip_get fileName (rev calls)). }
    intros Hnd. subst zip. rewrite JSZip_files_distinct; [reflexivity | assumption |].
    intros n _ [].
Qed.

End HandlerProperties.

(** ** The handlers on the example batch *)

Lemma example_rejects_broken (s : Store Registry) : resize_rejects broken_image s.
Proof.
  unfold resize_rejects, resizeImage, bind, call. cbn.
  rewrite String.eqb_refl. cbn. eexists _, _. reflexivity.
Qed.


Lemma processAll_failure_isolated_witness :
  images example_store !! 0%nat = Some broken_image /\
  status broken_image <> done /\
  resample_outcome example_store 0 broken_image = Throw (MkError "Failed to load image") /\
  exists st',
    processAll example_store = (Normal tt, st') /\
    (exists bad', images st' !! 0%nat = Some bad' /\ status bad' = error) /\
    (exists img', images st' !! 1%nat = Some img' /\ status img' = done /\
                  exists url, processedUrl img' = Some url) /\
    images st' !! 2%nat = Some ready_image.
Proof.
  assert (Hfail : resample_outcome example_store 0 broken_image =
                  Throw (MkError "Failed to load image")) by (vm_compute; reflexivity).
  split; [reflexivity |]. split; [discriminate |]. split; [exact Hfail |].
  destruct (processAll_failure_isolated example_store 0 broken_image
              (MkError "Failed to load image") eq_refl ltac:(discriminate) Hfail)
    as (st' & E & _ & (bad' & Hbad & Hstatus & _) & Hsib).
  exists st'. split; [exact E |]. split; [exists bad'; now split |]. split.
  - destruct (Hsib 1%nat mask_image ltac:(discriminate) eq_refl)
      as (img' & Hl & _ & _ & Hproc).
    destruct (Hproc ltac:(discriminate)) as (_ & Hdone & _ & Hurl).
    assert (Hd : status img' = done).
    { apply Hdone. eexists. vm_compute. reflexivity. }
    exists img'. split; [exact Hl |]. split; [exact Hd | exact (Hurl Hd)].
  - destruct (Hsib 2%nat ready_image ltac:(discriminate) eq_refl)
      as (img' & Hl & _ & Hkept & _).
    now rewrite <- (Hkept eq_refl).
Defined.

Lemma processAll_keeps_done_witness :
  images example_store !! 2%nat = Some ready_image /\
  status ready_image = done /\
  exists st',
    processAll example_store = (Normal tt, st') /\
    images st' !! 2%nat = Some ready_image.
Proof.
  split; [reflexivity |]. split; [reflexivity |].
  destruct (processAll_keeps_done example_store 2 ready_image eq_refl eq_refl)
    as (st' & E & Hkept & _).
  exists st'. split; [exact E | exact Hkept].
Defined.

(** C10 does not hold as stated.  Here three images are done and have a
    processed URL, yet the archive that is generated holds a single entry:
    the image whose processed URL is the empty string is not taken, and of
    the two images named "mask.png" only the data of the second is kept. *)
Lemma same_name_images_share_one_entry :
  Forall (fun img => status img = done /\ exists url, processedUrl img = Some url)
         (images example_same_name) /\
  length (images example_same_name) = 3%nat /\
  exists st' content href,
    downloadAll example_same_name = (Normal tt, st') /\
    trace st' =
      [Fetch "blob:0" (inr (MkResponse "blob:0" first_mask_blob));
       ResponseBlob (MkResponse "blob:0" first_mask_blob) (inr first_mask_blob);
       Fetch "blob:1" (inr (MkResponse "blob:1" second_mask_blob));
       ResponseBlob (MkResponse "blob:1" second_mask_blob) (inr second_mask_blob);
       GenerateAsync [("mask.png"%string, second_mask_blob)] (inr content);
       CreateObjectURL content href;
       Click href "unity_textures_resized.zip"].
Proof.
  split; [| split; [reflexivity |]].
  - repeat constructor; eexists; reflexivity.
  - eexists _, _, _. split; vm_compute; reflexivity.
Qed.

Lemma downloadAll_archive_witness :
  downloadAll example_processed = (Normal tt, example_downloaded) /\
  exists fetches calls content href,
    Fetched (List.filter isDoneImage (images example_processed)) fetches calls /\
    map fst calls = ["mask.png"; "ready.png"]%string /\
    trace example_downloaded =
      trace example_processed ++ fetches ++
        [GenerateAsync calls (inr content);
         CreateObjectURL content href;
         Click href "unity_textures_resized.zip"].
Proof.
  assert (E : downloadAll example_processed = (Normal tt, example_downloaded))
    by (vm_compute; reflexivity).
  split; [exact E |].
  destruct (downloadAll_archive example_processed (Normal tt) example_downloaded E)
    as (_ & _ & _ & Hdone).
  destruct (Hdone ltac:(discriminate))
    as (evs & T & [(fetches & calls & content & href & _ & HF & Hn & Hzip)
                  | (e & evs0 & failed & He & _)]).
  - cbv zeta in Hzip. destruct Hzip as (-> & _ & _ & Hsame).
    assert (Hnames : map fst calls = ["mask.png"; "ready.png"]%string) by exact Hn.
    assert (Hnd : List.NoDup (map fst calls)).
    { rewrite Hnames. constructor; [intros [Heq | []]; discriminate Heq |].
      constructor; [intros [] | constructor]. }
    rewrite (Hsame Hnd) in T.
    exists fetches, calls, content, href.
    split; [exact HF |]. split; [exact Hnames | exact T].
  - discriminate He.
Defined.

(** ** More properties of the batch handlers *)

Lemma bind_normal {S A B : Type} (m : M S A) (k : A -> M S B) (s s' : S) (a : A) :
  m s = (Normal a, s') -> bind m k s = k a s'.
Proof. intros E. unfold bind. now rewrite E. Qed.

Lemma bind_thrown {S A B : Type} (m : M S A) (k : A -> M S B) (s s' : S) (e : Error) :
  m s = (Throw e, s') -> bind m k s = (Throw e, s').
Proof. intros E. unfold bind. now rewrite E. Qed.

Lemma calculateTargetDimension_near (val : Z) :
  val - 2 <= calculateTargetDimension val <= val + 1.
Proof. unfold_round; euclid. Qed.

Lemma calculateTargetDimension_crunch (val : Z) :
  (val <= 2 /\ calculateTargetDimension val = val) \/
  (2 < val /\ (4 | calculateTargetDimension val)).
Proof.
  destruct (Z.le_gt_cases val 2) as [Hle | Hgt].
  - left. split; [assumption | now apply calculateTargetDimension_small].
  - right. split; [assumption | now apply calculateTargetDimension_aligned].
Qed.

Section MoreHandlerProperties.

Context {W : Type} `{Browser W}.

Implicit Types (st : Store W) (img : ImageFile) (upd : list ImageFile).

(** The four ways [resizeImage] can end, each with the calls it has made. *)
Lemma resizeImage_cases (f : File) (w h : Z) st :
  exists src st',
    let created := CreateObjectURL (File_as_Blob f) src in
    images st' = images st /\ isProcessing st' = isProcessing st /\
    ((resizeImage f w h st = (Throw (MkError "Failed to load image"), st') /\
      trace st' = trace st ++ [created; ImageLoad src false]) \/
     (resizeImage f w h st = (Throw (MkError "Failed to get canvas context"), st') /\
      trace st' = trace st ++ [created; ImageLoad src true; GetContext w h false]) \/
     (resizeImage f w h st = (Throw (MkError "Failed to create blob"), st') /\
      trace st' = trace st ++ [created; ImageLoad src true; GetContext w h true;
                               ToBlob src w h (type f) None]) \/
     (exists blob,
        resizeImage f w h st = (Normal blob, st') /\
        trace st' = trace st ++ [created; ImageLoad src true; GetContext w h true;
                                 ToBlob src w h (type f) (Some blob)])).
Proof.
  unfold resizeImage.
  destruct (call_spec (URL_createObjectURL (File_as_Blob f))
              (CreateObjectURL (File_as_Blob f)) st)
    as (src & st1 & E1 & I1 & P1 & T1).
  rewrite (bind_normal _ _ _ _ _ E1).
  destruct (call_spec (Image_load src) (ImageLoad src) st1)
    as (loaded & st2 & E2 & I2 & P2 & T2).
  rewrite (bind_normal _ _ _ _ _ E2).
  destruct loaded; cbn [negb].
  2: { exists src, st2. cbv zeta. split; [congruence |]. split; [congruence |].
       left. split; [reflexivity |]. rewrite T2, T1, <- app_assoc. reflexivity. }
  destruct (call_spec (canvas_getContext w h) (GetContext w h) st2)
    as (ctx & st3 & E3 & I3 & P3 & T3).
  rewrite (bind_normal _ _ _ _ _ E3).
  destruct ctx; cbn [negb].
  2: { exists src, st3. cbv zeta. split; [congruence |]. split; [congruence |].
       right; left. split; [reflexivity |].
       rewrite T3, T2, T1, <- !app_assoc. reflexivity. }
  destruct (call_spec (canvas_toBlob src w h (type f)) (ToBlob src w h (type f)) st3)
    as (blob & st4 & E4 & I4 & P4 & T4).
  rewrite (bind_normal _ _ _ _ _ E4).
  exists src, st4. cbv zeta. split; [congruence |]. split; [congruence |].
  destruct blob as [b |].
  - right; right; right. exists b. split; [reflexivity |].
    rewrite T4, T3, T2, T1, <- !app_assoc. reflexivity.
  - right; right; left. split; [reflexivity |].
    rewrite T4, T3, T2, T1, <- !app_assoc. reflexivity.
Qed.

Lemma resizeImage_run (f : File) (w h : Z) st :
  exists r st' evs,
    resizeImage f w h st = (r, st') /\ r <> OutOfFuel /\
    images st' = images st /\ isProcessing st' = isProcessing st /\
    trace st' = trace st ++ evs /\
    Forall (fun ev => is_resample_event ev = true) evs.
Proof.
  destruct (resizeImage_cases f w h st) as (src & st' & I & P & Hc). cbv zeta in Hc.
  destruct Hc as [[E T] | [[E T] | [[E T] | (blob & E & T)]]];
    eexists _, st', _; (split; [exact E |]); (split; [discriminate |]);
    (split; [exact I |]); (split; [exact P |]); (split; [exact T |]);
    repeat constructor.
Qed.

(** One iteration, with the calls it makes and the origin of the new URL. *)
Lemma processAll_body_run (i : nat) img upd st :
  upd !! i = Some img -> images st = upd ->
  exists img' st' evs,
    processAll_body i img upd st = (Normal (<[i:=img']> upd), st') /\
    images st' = <[i:=img']> upd /\
    isProcessing st' = isProcessing st /\
    trace st' = trace st ++ evs /\
    Forall (fun ev => is_resample_event ev = true) evs /\
    slot_result img img'.
Proof.
  intros Hi Himgs. unfold processAll_body.
  destruct (Status_eqb (status img) done) eqn:Ed.
  { exists img, st, []. rewrite list_insert_id, app_nil_r by assumption.
    repeat split; [assumption | constructor |].
    left. split; [now apply Status_eqb_eq | reflexivity]. }
  apply Status_eqb_neq in Ed. cbv zeta.
  set (upd1 := <[i:=with_status img processing]> upd).
  set (st1 := {| images := upd1; isProcessing := isProcessing st;
                 world := world st; trace := trace st |}).
  unfold try_catch.
  rewrite (bind_normal (setImages upd1) _ st st1 tt eq_refl).
  destruct (resizeImage_run (file img) (targetWidth img) (targetHeight img) st1)
    as (r & st2 & evs & E2 & Hr & I2 & P2 & T2 & Hev).
  destruct r as [blob | e |]; [| | congruence].
  - rewrite (bind_normal _ _ _ _ _ E2).
    assert (Hcur : upd1 !! i = Some (with_status img processing)).
    { apply list_lookup_insert_eq. eapply lookup_lt_Some; eassumption. }
    unfold call at 1, bind at 1.
    destruct (URL_createObjectURL blob (world st2)) as [url w3] eqn:Eurl.
    rewrite Hcur. cbn [default].
    change (with_processed (with_status img processing) url done)
      with (with_processed img url done).
    subst upd1. rewrite list_insert_insert_eq.
    exists (with_processed img url done). eexists.
    exists (evs ++ [CreateObjectURL blob url]).
    split; [reflexivity |]. cbn. repeat split.
    + now rewrite P2.
    + rewrite T2. cbn. now rewrite <- app_assoc.
    + apply Forall_app. split; [assumption | repeat constructor].
    + right. split; [assumption |]. right. exists blob, (world st2).
      now rewrite Eurl.
  - rewrite (bind_thrown _ _ _ _ _ E2).
    subst upd1. rewrite list_insert_insert_eq.
    exists (with_status img error). eexists. exists evs.
    split; [reflexivity |]. cbn. repeat split; try assumption.
    right. split; [assumption |]. now left.
Qed.

Lemma processAll_loop_run (fuel i : nat) : forall upd st,
  (length upd - i <= fuel)%nat -> images st = upd ->
  exists upd' st' evs,
    processAll_loop fuel i upd st = (Normal upd', st') /\
    images st' = upd' /\
    isProcessing st' = isProcessing st /\
    trace st' = trace st ++ evs /\
    Forall (fun ev => is_resample_event ev = true) evs /\
    length upd' = length upd /\
    (forall j, (j < i)%nat -> upd' !! j = upd !! j) /\
    (forall j img, (i <= j)%nat -> upd !! j = Some img ->
       exists img', upd' !! j = Some img' /\ slot_result img img').
Proof.
  revert i. induction fuel as [| fuel IH]; intros i upd st Hfuel Himgs.
  - destruct (upd !! i) as [img |] eqn:Hi.
    { apply lookup_lt_Some in Hi. lia. }
    exists upd, st, []. cbn. rewrite Hi, app_nil_r.
    repeat split; [assumption | constructor |].
    intros j img Hj Hl. apply lookup_lt_Some in Hl.
    apply lookup_ge_None in Hi. lia.
  - cbn [processAll_loop]. destruct (upd !! i) as [img |] eqn:Hi.
    2: { exists upd, st, []. rewrite app_nil_r.
         repeat split; [assumption | constructor |].
         intros j img Hj Hl. apply lookup_lt_Some in Hl.
         apply lookup_ge_None in Hi. lia. }
    destruct (processAll_body_run i img upd st Hi Himgs)
      as (img' & st1 & evs1 & E1 & I1 & P1 & T1 & Hev1 & O1).
    rewrite (bind_normal _ _ _ _ _ E1).
    pose proof (lookup_lt_Some _ _ _ Hi) as Hlt.
    destruct (IH (S i) (<[i:=img']> upd) st1)
      as (upd' & st' & evs & E & I & P & T & Hev & L & Hpre & Hpost).
    { rewrite length_insert. lia. }
    { assumption. }
    exists upd', st', (evs1 ++ evs). rewrite length_insert in L.
    split; [assumption |]. split; [assumption |]. split; [congruence |].
    split; [rewrite T, T1; now rewrite app_assoc |].
    split; [apply Forall_app; now split |].
    split; [assumption |]. split.
    + intros j Hj. rewrite Hpre by lia. apply list_lookup_insert_ne. lia.
    + intros j img0 Hj Hl. destruct (decide (j = i)) as [-> | Hne].
      * rewrite Hpre by lia. rewrite list_lookup_insert_eq by assumption.
        exists img'. split; [reflexivity |]. congruence.
      * apply Hpost; [lia |]. rewrite list_lookup_insert_ne by lia. assumption.
Qed.

(** A whole batch run: it ends normally, with the busy flag off, having made
    resample calls only, and every slot has its own result. *)
Lemma processAll_run st :
  exists st' evs,
    processAll st = (Normal tt, st') /\
    (images st = [] -> st' = st) /\
    (images st <> [] -> isProcessing st' = false) /\
    trace st' = trace st ++ evs /\
    Forall (fun ev => is_resample_event ev = true) evs /\
    length (images st') = length (images st) /\
    (forall j img, images st !! j = Some img ->
       exists img', images st' !! j = Some img' /\ slot_result img img').
Proof.
  unfold processAll.
  rewrite (bind_normal get_images _ st st (images st) eq_refl).
  destruct (Nat.eqb_spec (length (images st)) 0) as [Hz | Hnz].
  { exists st, []. rewrite app_nil_r.
    split; [reflexivity |]. split; [reflexivity |]. split.
    { intros Hne. destruct (images st); [contradiction | discriminate Hz]. }
    split; [reflexivity |]. split; [constructor |]. split; [reflexivity |].
    intros j img Hj. apply lookup_lt_Some in Hj. lia. }
  set (st1 := {| images := images st; isProcessing := true;
                 world := world st; trace := trace st |}).
  rewrite (bind_normal (setIsProcessing true) _ st st1 tt eq_refl). cbv zeta.
  destruct (processAll_loop_run (length (images st)) 0 (images st) st1)
    as (upd' & st2 & evs & E & I & P & T & Hev & L & _ & Hpost);
    [lia | reflexivity |].
  rewrite (bind_normal _ _ _ _ _ E).
  eexists _, evs. split; [reflexivity |]. cbn. rewrite I.
  split; [intros Hnil; rewrite Hnil in Hnz; cbn in Hnz; lia |].
  split; [reflexivity |]. split; [exact T |]. split; [assumption |].
  split; [assumption |].
  intros j img Hj. apply (Hpost j img); [lia | assumption].
Qed.

Lemma slot_result_same_source img img' : slot_result img img' -> same_source img img'.
Proof.
  intros [[_ ->] | [_ [-> | (blob & w & ->)]]]; repeat split.
Qed.

Lemma slot_result_settled img img' :
  slot_result img img' -> status img' = done \/ status img' = error.
Proof.
  intros [[Hd ->] | [_ [-> | (blob & w & ->)]]]; cbn; auto.
Qed.

(** X1. [resizeImage] ends in one of four ways, and makes no call after a
    step that failed: it rejects with "Failed to load image" after the image
    load fails, with "Failed to get canvas context" after a canvas of the
    target size gives no 2d context, with "Failed to create blob" after
    [toBlob] hands over null, and otherwise resolves with the very blob that
    [toBlob] produced for the target size and the file's own MIME type.  The
    React state is not touched. *)
Theorem resizeImage_outcomes (f : File) (w h : Z) st (r : completion Blob) st' :
  resizeImage f w h st = (r, st') ->
  images st' = images st /\ isProcessing st' = isProcessing st /\
  exists src,
    let created := CreateObjectURL (File_as_Blob f) src in
    (r = Throw (MkError "Failed to load image") /\
     trace st' = trace st ++ [created; ImageLoad src false]) \/
    (r = Throw (MkError "Failed to get canvas context") /\
     trace st' = trace st ++ [created; ImageLoad src true; GetContext w h false]) \/
    (r = Throw (MkError "Failed to create blob") /\
     trace st' = trace st ++ [created; ImageLoad src true; GetContext w h true;
                              ToBlob src w h (type f) None]) \/
    (exists blob,
       r = Normal blob /\
       trace st' = trace st ++ [created; ImageLoad src true; GetContext w h true;
                                ToBlob src w h (type f) (Some blob)]).
Proof.
  intros E.
  destruct (resizeImage_cases f w h st) as (src & st1 & I & P & Hc). cbv zeta in Hc.
  assert (Hst : st1 = st').
  { destruct Hc as [[E1 _] | [[E1 _] | [[E1 _] | (blob & E1 & _)]]]; congruence. }
  subst st1. split; [exact I |]. split; [exact P |]. exists src. cbv zeta.
  destruct Hc as [[E1 T] | [[E1 T] | [[E1 T] | (blob & E1 & T)]]].
  - left. split; [congruence | exact T].
  - right; left. split; [congruence | exact T].
  - right; right; left. split; [congruence | exact T].
  - right; right; right. exists blob. split; [congruence | exact T].
Qed.

(** X2. A batch run always ends normally and leaves nothing half done: after
    it every image is done or in error (none is left pending or processing),
    and for a list that is not empty the busy flag [isProcessing] is off
    again, whatever failed on the way. *)
Theorem processAll_settles_all st :
  exists st',
    processAll st = (Normal tt, st') /\
    (images st <> [] -> isProcessing st' = false) /\
    (forall img', In img' (images st') -> status img' = done \/ status img' = error).
Proof.
  destruct (processAll_run st) as (st' & evs & E & _ & Hflag & _ & _ & L & Hslots).
  exists st'. split; [exact E |]. split; [exact Hflag |].
  intros img' Hin. apply list_elem_of_In, list_elem_of_lookup in Hin.
  destruct Hin as (j & Hj).
  destruct (lookup_lt_is_Some_2 (images st) j) as (img & Hi).
  { rewrite <- L. eapply lookup_lt_Some. exact Hj. }
  destruct (Hslots j img Hi) as (img'' & Hj' & Hres).
  replace img' with img'' by congruence.
  eapply slot_result_settled. exact Hres.
Qed.

(** X3. A batch run keeps the list in length and order and changes nothing of
    an image but its status and its processed URL: id, file, original and
    target size and preview URL of every slot are as before. *)
Theorem processAll_keeps_sources st :
  exists st',
    processAll st = (Normal tt, st') /\
    Forall2 same_source (images st) (images st').
Proof.
  destruct (processAll_run st) as (st' & evs & E & _ & _ & _ & _ & L & Hslots).
  exists st'. split; [exact E |].
  apply Forall2_same_length_lookup. split; [now symmetry |].
  intros j img img' Hi Hj.
  destruct (Hslots j img Hi) as (img'' & Hj' & Hres).
  replace img' with img'' by congruence.
  now apply slot_result_same_source.
Qed.

(** X4. A batch run only resamples: the platform calls it adds to the trace
    are object-URL creations, image loads and canvas calls; it never fetches,
    never generates an archive and never clicks a download link. *)
Theorem processAll_only_resamples st :
  exists st' evs,
    processAll st = (Normal tt, st') /\
    trace st' = trace st ++ evs /\
    Forall (fun ev => is_resample_event ev = true) evs /\
    Forall (fun ev => is_Click ev = false /\ is_GenerateAsync ev = false) evs.
Proof.
  destruct (processAll_run st) as (st' & evs & E & _ & _ & T & Hev & _).
  exists st', evs. split; [exact E |]. split; [exact T |]. split; [exact Hev |].
  eapply Forall_impl; [exact Hev |].
  intros ev. destruct ev; cbn; intros Hk; (discriminate Hk || now split).
Qed.

Lemma filter_done_with_url (imgs : list ImageFile) :
  (forall img, In img imgs -> status img = done -> truthy (processedUrl img) = true) ->
  List.filter isDoneImage imgs =
  List.filter (fun img => Status_eqb (status img) done) imgs.
Proof.
  intros Hinv. apply filter_ext_in. intros img Hin. unfold isDoneImage.
  destruct (Status_eqb (status img) done) eqn:Ed; [| reflexivity].
  apply Status_eqb_eq in Ed. now rewrite (Hinv img Hin Ed).
Qed.

Lemma downloadAll_disabled_spec (imgs : list ImageFile) st :
  images st = imgs ->
  downloadAll_disabled st = false <->
  List.filter (fun img => Status_eqb (status img) done) imgs <> [].
Proof.
  intros <-. unfold downloadAll_disabled. rewrite negb_false_iff.
  induction (images st) as [| img rest IH]; cbn.
  - split; [discriminate | congruence].
  - destruct (Status_eqb (status img) done); cbn.
    + split; [discriminate | reflexivity].
    + exact IH.
Qed.

(** X5. Processing keeps the images downloadable.  When the platform never
    hands out an empty object URL and every done image has a processed URL
    before the run, then every done image has one after the run; so
    [downloadAll] then takes exactly the done images, and the Download
    button is enabled exactly when [downloadAll] has something to archive. *)
Theorem processAll_done_have_url st :
  (forall blob w, fst (URL_createObjectURL blob w) <> ""%string) ->
  (forall img, In img (images st) -> status img = done ->
     truthy (processedUrl img) = true) ->
  exists st',
    processAll st = (Normal tt, st') /\
    (forall img, In img (images st') -> status img = done ->
       truthy (processedUrl img) = true) /\
    List.filter isDoneImage (images st') =
      List.filter (fun img => Status_eqb (status img) done) (images st') /\
    (downloadAll_disabled st' = false <-> List.filter isDoneImage (images st') <> []).
Proof.
  intros Hurl Hinv.
  destruct (processAll_run st) as (st' & evs & E & _ & _ & _ & _ & L & Hslots).
  exists st'. split; [exact E |].
  assert (Hinv' : forall img, In img (images st') -> status img = done ->
                    truthy (processedUrl img) = true).
  { intros img' Hin Hd. apply list_elem_of_In, list_elem_of_lookup in Hin.
    destruct Hin as (j & Hj).
    destruct (lookup_lt_is_Some_2 (images st) j) as (img & Hi).
    { rewrite <- L. eapply lookup_lt_Some. exact Hj. }
    destruct (Hslots j img Hi) as (img'' & Hj' & Hres).
    replace img'' with img' in Hres by congruence.
    destruct Hres as [[Hd0 ->] | [_ [-> | (blob & w & ->)]]].
    - apply Hinv; [| assumption].
      apply list_elem_of_In. eapply list_elem_of_lookup_2. exact Hi.
    - discriminate Hd.
    - cbn. specialize (Hurl blob w).
      destruct (fst (URL_createObjectURL blob w)); [contradiction | reflexivity]. }
  split; [exact Hinv' |].
  rewrite (filter_done_with_url _ Hinv'). split; [reflexivity |].
  now apply downloadAll_disabled_spec.
Qed.



(** X7. [downloadAll] never touches the React state: however it ends, the
    image list and the busy flag are as before; and it ends by returning or
    by throwing. *)
Theorem downloadAll_keeps_state st :
  exists r st',
    downloadAll st = (r, st') /\ r <> OutOfFuel /\
    images st' = images st /\ isProcessing st' = isProcessing st.
Proof.
  unfold downloadAll. cbv zeta.
  rewrite (bind_normal get_images _ st st (images st) eq_refl).
  destruct (length (List.filter isDoneImage (images st)) =? 0)%nat.
  { exists (Normal tt), st. repeat split. discriminate. }
  destruct (downloadAll_loop_spec (List.filter isDoneImage (images st)) new_JSZip st)
    as (r1 & st1 & evs1 & E1 & I1 & P1 & _ & _ & Hr1).
  destruct r1 as [zip | e |]; [| | contradiction].
  2: { rewrite (bind_thrown _ _ _ _ _ E1). exists (Throw e), st1.
       repeat split; [discriminate | assumption ..]. }
  rewrite (bind_normal _ _ _ _ _ E1).
  destruct (await_call_spec (JSZip_generateAsync zip) (GenerateAsync zip) st1)
    as (r2 & st2 & E2 & I2 & P2 & _).
  destruct r2 as [e | content].
  { rewrite (bind_thrown _ _ _ _ _ E2). exists (Throw e), st2.
    repeat split; [discriminate | congruence ..]. }
  rewrite (bind_normal _ _ _ _ _ E2).
  destruct (call_spec (URL_createObjectURL content) (CreateObjectURL content) st2)
    as (href & st3 & E3 & I3 & P3 & _).
  rewrite (bind_normal _ _ _ _ _ E3).
  destruct (call_spec (link_click href "unity_textures_resized.zip")
              (fun _ => Click href "unity_textures_resized.zip") st3)
    as ([] & st4 & E4 & I4 & P4 & _).
  rewrite E4. exists (Normal tt), st4.
  repeat split; [discriminate | congruence ..].
Qed.

(** The download loop over a list that holds an image whose URL cannot be
    fetched: it throws, having made fetch calls only. *)
Lemma downloadAll_loop_rejected (imgs : list ImageFile) : forall (zip : JSZip) st,
  (exists img, In img imgs /\
     forall w, exists e w',
       window_fetch (default "undefined"%string (processedUrl img)) w = (inl e, w')) ->
  exists e st' evs,
    downloadAll_loop imgs zip st = (Throw e, st') /\
    trace st' = trace st ++ evs /\
    Forall (fun ev => is_Click ev = false /\ is_GenerateAsync ev = false) evs.
Proof.
  induction imgs as [| img rest IH]; intros zip st (bad & Hin & Hrej).
  { destruct Hin. }
  cbn [downloadAll_loop]. cbv zeta.
  set (url := default "undefined"%string (processedUrl img)).
  unfold await at 1, call at 1, bind at 1 2.
  destruct (window_fetch url (world st)) as [r1 w1] eqn:Ef.
  destruct r1 as [e | response].
  { cbn. eexists e, _, [Fetch url (inl e)].
    split; [reflexivity |]. split; [reflexivity |]. repeat constructor. }
  cbn [ret].
  destruct Hin as [-> | Hin].
  { destruct (Hrej (world st)) as (e & w' & Ef'). fold url in Ef'. congruence. }
  set (st1 := {| images := images st; isProcessing := isProcessing st;
                 world := w1; trace := trace st ++ [Fetch url (inr response)] |}).
  unfold await at 1, call at 1, bind at 1 2.
  destruct (Response_blob response (world st1)) as [r2 w2] eqn:Eb.
  destruct r2 as [e | blob].
  { cbn. eexists e, _, [Fetch url (inr response); ResponseBlob response (inl e)].
    split; [reflexivity |]. split; [now rewrite <- app_assoc |]. repeat constructor. }
  cbn [ret].
  set (st2 := {| images := images st1; isProcessing := isProcessing st1;
                 world := w2; trace := trace st1 ++ [ResponseBlob response (inr blob)] |}).
  destruct (IH (JSZip_file (name (file img)) blob zip) st2) as (e & st' & evs & E & T & Hev).
  { exists bad. split; assumption. }
  exists e, st', (Fetch url (inr response) :: ResponseBlob response (inr blob) :: evs).
  split; [exact E |]. split.
  - rewrite T. cbn. now rewrite <- !app_assoc.
  - repeat constructor; assumption.
Qed.

(** X8. A failed fetch is not isolated in [downloadAll]: when one done image
    has a processed URL that can never be fetched, the handler throws, and
    no archive is generated and no download link clicked, whatever the
    other images are. *)
Theorem downloadAll_fetch_failure_aborts st img (url : string) :
  In img (images st) ->
  status img = done ->
  processedUrl img = Some url ->
  url <> ""%string ->
  (forall w, exists e w', window_fetch url w = (inl e, w')) ->
  exists e st' evs,
    downloadAll st = (Throw e, st') /\
    trace st' = trace st ++ evs /\
    Forall (fun ev => is_Click ev = false /\ is_GenerateAsync ev = false) evs.
Proof.
  intros Hin Hd Hurl Hne Hrej.
  assert (Hsel : In img (List.filter isDoneImage (images st))).
  { apply filter_In. split; [assumption |]. apply isDoneImage_spec.
    split; [assumption |]. rewrite Hurl. cbn. destruct url; [contradiction | reflexivity]. }
  unfold downloadAll. cbv zeta.
  rewrite (bind_normal get_images _ st st (images st) eq_refl).
  destruct (Nat.eqb_spec (length (List.filter isDoneImage (images st))) 0) as [Hz | _].
  { destruct (List.filter isDoneImage (images st)); [destruct Hsel | discriminate Hz]. }
  destruct (downloadAll_loop_rejected (List.filter isDoneImage (images st)) new_JSZip st)
    as (e & st' & evs & E & T & Hev).
  { exists img. split; [assumption |]. rewrite Hurl. exact Hrej. }
  rewrite (bind_thrown _ _ _ _ _ E). exists e, st', evs. repeat split; assumption.
Qed.

End MoreHandlerProperties.

(** ** Properties of adding, removing and clearing images *)

Lemma calculateTargetDimension_nonneg (val : Z) :
  0 <= val -> 0 <= calculateTargetDimension val.
Proof. intros Hnn. unfold_round; euclid. Qed.

Section PageProperties.

Context {W : Type} `{Browser W} `{PagePlatform W}.

Implicit Types (p : Page W) (img : ImageFile) (f : File).

(** The two ways [getImageDimensions] can end. *)
Lemma getImageDimensions_cases f p :
  exists src p',
    let created := CreateObjectURL (File_as_Blob f) src in
    images (app p') = images (app p) /\
    isProcessing (app p') = isProcessing (app p) /\
    console p' = console p /\
    ((exists width height : N,
        getImageDimensions f p = (Normal (Z.of_N width, Z.of_N height), p') /\
        revoked p' = revoked p ++ [src] /\
        trace (app p') = trace (app p) ++ [created; ImageLoad src true]) \/
     (getImageDimensions f p =
        (Throw (MkError "Failed to load image for dimensions"), p') /\
      revoked p' = revoked p /\
      trace (app p') = trace (app p) ++ [created; ImageLoad src false])).
Proof.
  unfold getImageDimensions, in_app, call, bind.
  destruct (URL_createObjectURL (File_as_Blob f) (world (app p))) as [src w1].
  cbn. destruct (Image_load src w1) as [loaded w2]. cbn.
  destruct loaded.
  - unfold image_size. cbn. destruct (Image_size src w2) as [width height]. cbn.
    exists src.
    exists {| app := {| images := images (app p); isProcessing := isProcessing (app p);
                        world := URL_revokeObjectURL src w2;
                        trace := (trace (app p) ++ [CreateObjectURL (File_as_Blob f) src])
                                 ++ [ImageLoad src true] |};
              revoked := revoked p ++ [src]; console := console p |}.
    cbn. repeat split.
    left. exists width, height. repeat split. now rewrite <- app_assoc.
  - exists src.
    exists {| app := {| images := images (app p); isProcessing := isProcessing (app p);
                        world := w2;
                        trace := (trace (app p) ++ [CreateObjectURL (File_as_Blob f) src])
                                 ++ [ImageLoad src false] |};
              revoked := revoked p; console := console p |}.
    cbn. repeat split.
    right. repeat split. now rewrite <- app_assoc.
Qed.

(** X9. [getImageDimensions] creates an object URL for the file and loads it
    as an image.  When the image loads, it resolves with exactly the width
    and height the platform reports for that loaded image, neither of them
    negative, and revokes the one URL it created; when the image does not
    load, it rejects with "Failed to load image for dimensions" and revokes
    nothing, so that URL stays registered.  It makes these two platform calls
    and no other, and leaves the React state (image list and busy flag) and
    the console alone. *)
Theorem getImageDimensions_outcomes f p (r : completion (Z * Z)) p' :
  getImageDimensions f p = (r, p') ->
  images (app p') = images (app p) /\
  isProcessing (app p') = isProcessing (app p) /\
  console p' = console p /\
  let created := URL_createObjectURL (File_as_Blob f) (world (app p)) in
  let src := fst created in
  let load := Image_load src (snd created) in
  let size := Image_size src (snd load) in
  trace (app p') =
    trace (app p) ++ [CreateObjectURL (File_as_Blob f) src; ImageLoad src (fst load)] /\
  ((fst load = true /\
    r = Normal (Z.of_N (fst size), Z.of_N (snd size)) /\
    0 <= Z.of_N (fst size) /\ 0 <= Z.of_N (snd size) /\
    revoked p' = revoked p ++ [src] /\
    world (app p') = URL_revokeObjectURL src (snd load)) \/
   (fst load = false /\
    r = Throw (MkError "Failed to load image for dimensions") /\
    revoked p' = revoked p /\
    world (app p') = snd load)).
Proof.
  unfold getImageDimensions, in_app, call, bind. cbv zeta.
  destruct (URL_createObjectURL (File_as_Blob f) (world (app p))) as [src w1].
  cbn. destruct (Image_load src w1) as [loaded w2]. cbn.
  destruct loaded.
  - unfold image_size. cbn. destruct (Image_size src w2) as [width height]. cbn.
    intros [= <- <-]. cbn. repeat split.
    + now rewrite <- app_assoc.
    + left. repeat split; apply N2Z.is_nonneg.
  - intros [= <- <-]. cbn. repeat split.
    + now rewrite <- app_assoc.
    + right. repeat split.
Qed.

(** The loop of [handleFiles]: it always runs to the end; every image-typed
    file is either added or reported, in the order of the files. *)
Lemma handleFiles_loop_spec (files : list File) : forall (acc : list ImageFile) p,
  exists new errs p',
    handleFiles_loop files acc p = (Normal (acc ++ new), p') /\
    images (app p') = images (app p) /\
    isProcessing (app p') = isProcessing (app p) /\
    console p' = console p ++ errs /\
    Forall freshly_added new /\
    Forall (fun entry => snd entry = MkError "Failed to load image for dimensions") errs /\
    map file new `sublist_of` List.filter is_image_file files /\
    map fst errs `sublist_of` map name (List.filter is_image_file files) /\
    (length new + length errs = length (List.filter is_image_file files))%nat /\
    (List.filter is_image_file files = [] -> p' = p).
Proof.
  induction files as [| f rest IH]; intros acc p.
  { exists [], [], p. cbn. rewrite !app_nil_r.
    repeat split; constructor. }
  cbn [handleFiles_loop List.filter]. fold (is_image_file f).
  destruct (is_image_file f) eqn:Himg; cbn [negb].
  2: { exact (IH acc p). }
  unfold bind at 1, try_catch.
  destruct (getImageDimensions_cases f p) as (src & p1 & I1 & P1 & C1 & Hc).
  cbv zeta in Hc.
  destruct Hc as [(width & height & E1 & _) | (E1 & _)].
  - rewrite (bind_normal _ _ _ _ _ E1). cbn [fst snd].
    unfold random_toString36 at 1, bind at 1.
    destruct (Math_random_toString36 (world (app p1))) as [random w2].
    unfold in_app at 1, call at 1, bind at 1. cbn [world with_world app].
    destruct (URL_createObjectURL (File_as_Blob f) w2) as [previewUrl w3].
    unfold ret at 1.
    match goal with
    | |- context [handleFiles_loop rest (acc ++ [?rec]) ?q] =>
        destruct (IH (acc ++ [rec]) q)
          as (new & errs & p' & E & I & P & C & Hnew & Herrs & Hs1 & Hs2 & Hlen & _);
        exists (rec :: new), errs, p'
    end.
    rewrite <- app_assoc in E. split; [exact E |].
    cbn in I, P, C. split; [congruence |]. split; [congruence |].
    split; [congruence |]. split.
    { constructor; [| assumption].
      repeat split; cbn; try apply N2Z.is_nonneg. }
    split; [assumption |]. split; [cbn; now apply sublist_skip |].
    split; [cbn; now apply sublist_cons |]. split; [cbn; lia | discriminate].
  - rewrite (bind_thrown _ _ _ _ _ E1).
    unfold console_error at 1, ret at 1, bind at 1.
    match goal with
    | |- context [handleFiles_loop rest acc ?q] =>
        destruct (IH acc q)
          as (new & errs & p' & E & I & P & C & Hnew & Herrs & Hs1 & Hs2 & Hlen & _);
        exists new, ((name f, MkError "Failed to load image for dimensions") :: errs), p'
    end.
    split; [exact E |]. cbn in I, P, C.
    split; [congruence |]. split; [congruence |].
    split; [rewrite C, C1; now rewrite <- app_assoc |]. split; [assumption |].
    split; [now constructor |]. split; [now apply sublist_cons |].
    split; [cbn; now apply sublist_skip |]. split; [cbn; lia | discriminate].
Qed.

Lemma handleFiles_run (files : option (list File)) p :
  exists new errs p',
    handleFiles files p = (Normal tt, p') /\
    images (app p') = images (app p) ++ new /\
    isProcessing (app p') = isProcessing (app p) /\
    console p' = console p ++ errs /\
    Forall freshly_added new /\
    Forall (fun entry => snd entry = MkError "Failed to load image for dimensions") errs /\
    map file new `sublist_of` List.filter is_image_file (default [] files) /\
    map fst errs `sublist_of` map name (List.filter is_image_file (default [] files)) /\
    (length new + length errs =
       length (List.filter is_image_file (default [] files)))%nat /\
    (List.filter is_image_file (default [] files) = [] -> p' = p).
Proof.
  destruct files as [files |]; cbn [handleFiles default].
  2: { exists [], [], p. cbn. rewrite !app_nil_r. repeat split; constructor. }
  destruct (handleFiles_loop_spec files [] p)
    as (new & errs & p1 & E & I & P & C & Hnew & Herrs & Hs1 & Hs2 & Hlen & Hidle).
  cbn [app] in E. rewrite (bind_normal _ _ _ _ _ E).
  exists new, errs. eexists. split; [reflexivity |]. cbn.
  split; [now rewrite I |]. split; [assumption |]. split; [assumption |].
  split; [assumption |]. split; [assumption |]. split; [assumption |].
  split; [assumption |]. split; [assumption |].
  intros Hnil. rewrite (Hidle Hnil) in *.
  rewrite Hnil in Hlen. destruct new; [| discriminate Hlen].
  destruct p as [[imgs flag w tr] rv cs]. cbn. now rewrite app_nil_r.
Qed.

(** X10. [handleFiles] never fails and only appends: the images already in
    the list stay in place, and each added record is pending, has no
    processed URL, carries the size the platform read and the targets the
    rounding policy gives for it; the files of the added records are, in
    order, among the input files whose type starts with "image/". *)
Theorem handleFiles_appends (files : option (list File)) p :
  exists new p',
    handleFiles files p = (Normal tt, p') /\
    images (app p') = images (app p) ++ new /\
    isProcessing (app p') = isProcessing (app p) /\
    Forall freshly_added new /\
    map file new `sublist_of` List.filter is_image_file (default [] files).
Proof.
  destruct (handleFiles_run files p)
    as (new & errs & p' & E & I & P & _ & Hnew & _ & Hs & _).
  exists new, p'. repeat split; assumption.
Qed.

(** X11. Every image [handleFiles] adds has targets fit for block
    compression: each target is a multiple of 4, or the original itself when
    that is at most 2; it is never negative, at most 2 below and at most 1
    above the original. *)
Theorem handleFiles_targets (files : option (list File)) p :
  exists new p',
    handleFiles files p = (Normal tt, p') /\
    images (app p') = images (app p) ++ new /\
    Forall (fun img =>
              crunch_compatible (originalWidth img) (targetWidth img) /\
              crunch_compatible (originalHeight img) (targetHeight img) /\
              0 <= targetWidth img /\ 0 <= targetHeight img /\
              originalWidth img - 2 <= targetWidth img <= originalWidth img + 1 /\
              originalHeight img - 2 <= targetHeight img <= originalHeight img + 1)
           new.
Proof.
  destruct (handleFiles_run files p)
    as (new & errs & p' & E & I & _ & _ & Hnew & _).
  exists new, p'. split; [exact E |]. split; [exact I |].
  eapply Forall_impl; [exact Hnew |].
  intros img (_ & _ & Hw & Hh & -> & ->).
  split; [apply calculateTargetDimension_crunch |].
  split; [apply calculateTargetDimension_crunch |].
  split; [now apply calculateTargetDimension_nonneg |].
  split; [now apply calculateTargetDimension_nonneg |].
  split; apply calculateTargetDimension_near.
Qed.

(** The loop of [handleFiles], file by file: each image-typed file is added
    or reported. *)
Lemma handleFiles_loop_accounts (files : list File) : forall (acc : list ImageFile) p,
  exists new errs p',
    handleFiles_loop files acc p = (Normal (acc ++ new), p') /\
    images (app p') = images (app p) /\
    console p' = console p ++ errs /\
    Accounted (List.filter is_image_file files) new errs.
Proof.
  induction files as [| f rest IH]; intros acc p.
  { exists [], [], p. cbn. rewrite !app_nil_r. repeat split. constructor. }
  cbn [handleFiles_loop List.filter]. fold (is_image_file f).
  destruct (is_image_file f) eqn:Himg; cbn [negb].
  2: { exact (IH acc p). }
  unfold bind at 1, try_catch.
  destruct (getImageDimensions_cases f p) as (src & p1 & I1 & P1 & C1 & Hc).
  cbv zeta in Hc.
  destruct Hc as [(width & height & E1 & _) | (E1 & _)].
  - rewrite (bind_normal _ _ _ _ _ E1). cbn [fst snd].
    unfold random_toString36 at 1, bind at 1.
    destruct (Math_random_toString36 (world (app p1))) as [random w2].
    unfold in_app at 1, call at 1, bind at 1. cbn [world with_world app].
    destruct (URL_createObjectURL (File_as_Blob f) w2) as [previewUrl w3].
    unfold ret at 1.
    match goal with
    | |- context [handleFiles_loop rest (acc ++ [?rec]) ?q] =>
        destruct (IH (acc ++ [rec]) q) as (new & errs & p' & E & I & C & Hacc);
        exists (rec :: new), errs, p'
    end.
    rewrite <- app_assoc in E. split; [exact E |].
    cbn in I, C. split; [congruence |]. split; [congruence |].
    now constructor.
  - rewrite (bind_thrown _ _ _ _ _ E1).
    unfold console_error at 1, ret at 1, bind at 1.
    match goal with
    | |- context [handleFiles_loop rest acc ?q] =>
        destruct (IH acc q) as (new & errs & p' & E & I & C & Hacc);
        exists new, ((name f, MkError "Failed to load image for dimensions") :: errs), p'
    end.
    split; [exact E |]. cbn in I, C. split; [congruence |].
    split; [rewrite C, C1; now rewrite <- app_assoc |].
    now constructor.
Qed.

Lemma Accounted_each (files : list File) (new : list ImageFile)
    (errs : list (string * Error)) :
  Accounted files new errs ->
  forall f, In f files ->
    (exists img, In img new /\ file img = f) \/
    In (name f, MkError "Failed to load image for dimensions") errs.
Proof.
  induction 1 as [| f0 rest img new errs Hfile _ IH | f0 rest new errs _ IH];
    intros f Hin.
  - destruct Hin.
  - destruct Hin as [<- | Hin].
    + left. exists img. split; [now left | assumption].
    + destruct (IH f Hin) as [(img' & Hin' & Hf) | Herr]; [left | now right].
      exists img'. split; [now right | assumption].
  - destruct Hin as [<- | Hin]; [right; now left |].
    destruct (IH f Hin) as [Hadded | Herr]; [now left | right; now right].
Qed.

Lemma Accounted_only (files : list File) (new : list ImageFile)
    (errs : list (string * Error)) :
  Accounted files new errs ->
  (length new + length errs = length files)%nat /\
  map file new `sublist_of` files /\
  map fst errs `sublist_of` map name files /\
  Forall (fun entry => snd entry = MkError "Failed to load image for dimensions") errs.
Proof.
  induction 1 as [| f0 rest img new errs Hfile _ IH | f0 rest new errs _ IH].
  - repeat split; constructor.
  - destruct IH as (Hlen & Hs1 & Hs2 & Hmsg). cbn. rewrite Hfile.
    split; [lia |]. split; [now apply sublist_skip |].
    split; [now apply sublist_cons | assumption].
  - destruct IH as (Hlen & Hs1 & Hs2 & Hmsg). cbn.
    split; [lia |]. split; [now apply sublist_cons |].
    split; [now apply sublist_skip | now constructor].
Qed.

(** X12. No image file is dropped silently, and one that fails does not stop
    the others: every input file whose type starts with "image/" is either
    the file of a record that is added to the list, or is reported on the
    console under its name with the error "Failed to load image for
    dimensions".  Going through the image-typed files in order, each accounts
    for exactly one added record or one console line, and nothing else is
    added or reported. *)
Theorem handleFiles_accounts_for_files (files : list File) p :
  exists new errs p',
    handleFiles (Some files) p = (Normal tt, p') /\
    images (app p') = images (app p) ++ new /\
    console p' = console p ++ errs /\
    (forall f, In f files -> is_image_file f = true ->
       (exists img, In img new /\ file img = f) \/
       In (name f, MkError "Failed to load image for dimensions") errs) /\
    Accounted (List.filter is_image_file files) new errs /\
    (length new + length errs = length (List.filter is_image_file files))%nat /\
    map file new `sublist_of` List.filter is_image_file files /\
    map fst errs `sublist_of` map name (List.filter is_image_file files) /\
    Forall (fun entry => snd entry = MkError "Failed to load image for dimensions") errs.
Proof.
  destruct (handleFiles_loop_accounts files [] p) as (new & errs & p1 & E & I & C & Hacc).
  cbn [app] in E. cbn [handleFiles]. rewrite (bind_normal _ _ _ _ _ E).
  exists new, errs. eexists. split; [reflexivity |].
  cbn. split; [now rewrite I |]. split; [exact C |]. split.
  { intros f Hin Himg. apply (Accounted_each _ _ _ Hacc).
    apply filter_In. now split. }
  split; [exact Hacc |]. exact (Accounted_only _ _ _ Hacc).
Qed.

(** X13. With no file list, or with one that holds no file whose type starts
    with "image/", [handleFiles] changes nothing: no image, no platform call,
    no console line. *)
Theorem handleFiles_idle (files : option (list File)) p :
  List.filter is_image_file (default [] files) = [] ->
  handleFiles files p = (Normal tt, p).
Proof.
  intros Hnil.
  destruct (handleFiles_run files p) as (new & errs & p' & E & Hrest).
  do 8 destruct Hrest as [_ Hrest].
  now rewrite (Hrest Hnil) in E.
Qed.

Lemma filter_keeps_all {A : Type} (keep : A -> bool) (l : list A) :
  (forall x, In x l -> keep x = true) -> List.filter keep l = l.
Proof.
  induction l as [| x rest IH]; intros Hall; [reflexivity |]. cbn.
  rewrite (Hall x (or_introl eq_refl)). f_equal. apply IH.
  intros y Hy. apply Hall. now right.
Qed.

Lemma in_app_get_images p : in_app get_images p = (Normal (images (app p)), p).
Proof. now destruct p as [st rv cs]. Qed.

Lemma revoke_urls_spec img p :
  revoke_urls img p =
    (Normal tt,
     {| app := with_world (app p)
                 (fold_left (fun w url => URL_revokeObjectURL url w)
                    (urls_of img) (world (app p)));
        revoked := revoked p ++ urls_of img;
        console := console p |}).
Proof.
  unfold revoke_urls, urls_of, revokeObjectURL, bind, ret.
  destruct (truthy (processedUrl img)); cbn.
  - unfold with_world. cbn. now rewrite <- app_assoc.
  - reflexivity.
Qed.

(** X14. [removeImage] removes every image with the given id and keeps the
    others in order; it revokes the preview URL and the processed URL of the
    first image with that id, and of no other, also when several images
    share the id; for an id that no image has, nothing changes and nothing
    is revoked. *)
Theorem removeImage_removes (id' : string) p :
  exists p',
    removeImage id' p = (Normal tt, p') /\
    images (app p') =
      List.filter (fun img => negb (String.eqb (id img) id')) (images (app p)) /\
    Forall (fun img => id img <> id') (images (app p')) /\
    revoked p' =
      revoked p ++
      match List.find (fun img => String.eqb (id img) id') (images (app p)) with
      | Some removed => urls_of removed
      | None => []
      end /\
    trace (app p') = trace (app p) /\
    ((forall img, In img (images (app p)) -> id img <> id') ->
     images (app p') = images (app p) /\ revoked p' = revoked p).
Proof.
  unfold removeImage. cbv zeta.
  rewrite (bind_normal _ _ _ _ _ (in_app_get_images p)).
  set (same := fun img => String.eqb (id img) id').
  set (other := fun img => negb (String.eqb (id img) id')).
  assert (Hkeep : Forall (fun img => id img <> id') (List.filter other (images (app p)))).
  { apply Forall_forall. intros img Hin. apply list_elem_of_In, filter_In in Hin.
    destruct Hin as [_ Ho]. subst other. cbn in Ho.
    apply negb_true_iff, String.eqb_neq in Ho. exact Ho. }
  assert (Habsent : (forall img, In img (images (app p)) -> id img <> id') ->
            List.filter other (images (app p)) = images (app p) /\
            List.find same (images (app p)) = None).
  { intros Hno. split.
    - apply filter_keeps_all. intros img Hin. subst other. cbn.
      apply negb_true_iff, String.eqb_neq. now apply Hno.
    - destruct (List.find same (images (app p))) as [x |] eqn:Hf; [| reflexivity].
      apply find_some in Hf. destruct Hf as [Hin Hs]. subst same. cbn in Hs.
      apply String.eqb_eq in Hs. now destruct (Hno x Hin). }
  destruct (List.find same (images (app p))) as [removed |] eqn:Hfind.
  - rewrite (bind_normal _ _ _ _ _ (revoke_urls_spec removed p)).
    eexists. split; [reflexivity |]. cbn.
    split; [reflexivity |]. split; [assumption |]. split; [reflexivity |].
    split; [reflexivity |].
    intros Hno. destruct (Habsent Hno) as [_ Hf]. discriminate Hf.
  - rewrite (bind_normal (ret tt) _ p p tt eq_refl).
    eexists. split; [reflexivity |]. cbn. rewrite app_nil_r.
    split; [reflexivity |]. split; [assumption |]. split; [reflexivity |].
    split; [reflexivity |].
    intros Hno. split; [now destruct (Habsent Hno) | reflexivity].
Qed.

Lemma clearAll_forEach_spec (imgs : list ImageFile) : forall p,
  clearAll_forEach imgs p =
    (Normal tt,
     {| app := with_world (app p)
                 (fold_left (fun w url => URL_revokeObjectURL url w)
                    (concat (map urls_of imgs)) (world (app p)));
        revoked := revoked p ++ concat (map urls_of imgs);
        console := console p |}).
Proof.
  induction imgs as [| img rest IH]; intros p.
  - cbn. unfold ret. rewrite app_nil_r. now destruct p as [[imgs flag w tr] rv cs].
  - cbn [clearAll_forEach map concat].
    rewrite (bind_normal _ _ _ _ _ (revoke_urls_spec img p)). rewrite IH. cbn.
    now rewrite fold_left_app, <- app_assoc.
Qed.

(** X15. [clearAll] empties the list and revokes the URLs of every image it
    held: each preview URL and each processed URL that is set, image by
    image in list order; it makes no other platform call. *)
Theorem clearAll_revokes_all p :
  exists p',
    clearAll p = (Normal tt, p') /\
    images (app p') = [] /\
    revoked p' = revoked p ++ concat (map urls_of (images (app p))) /\
    trace (app p') = trace (app p) /\
    (forall img, In img (images (app p)) ->
       In (previewUrl img) (revoked p') /\
       (forall url, processedUrl img = Some url -> url <> ""%string ->
          In url (revoked p'))).
Proof.
  unfold clearAll.
  rewrite (bind_normal _ _ _ _ _ (in_app_get_images p)).
  rewrite (bind_normal _ _ _ _ _ (clearAll_forEach_spec (images (app p)) p)).
  eexists. split; [reflexivity |]. cbn. repeat split.
  - apply in_or_app. right. apply in_concat. exists (urls_of img).
    split; [now apply in_map | now left].
  - intros url Hurl Hne. apply in_or_app. right. apply in_concat.
    exists (urls_of img). split; [now apply in_map |].
    unfold urls_of. rewrite Hurl. cbn.
    destruct url; [contradiction | right; now left].
Qed.

(** X16. After [clearAll] both batch handlers are idle: [processAll] and
    [downloadAll] return at once and leave the page exactly as it is, and the
    Download button is disabled. *)
Theorem clearAll_then_idle p :
  exists p',
    clearAll p = (Normal tt, p') /\
    in_app processAll p' = (Normal tt, p') /\
    in_app downloadAll p' = (Normal tt, p') /\
    downloadAll_disabled (app p') = true.
Proof.
  unfold clearAll.
  rewrite (bind_normal _ _ _ _ _ (in_app_get_images p)).
  rewrite (bind_normal _ _ _ _ _ (clearAll_forEach_spec (images (app p)) p)).
  eexists. split; [reflexivity |]. repeat split.
Qed.

End PageProperties.

(** ** The added properties on the examples *)

Lemma example_urls_not_empty (blob : Blob) (w : Registry) :
  fst (URL_createObjectURL blob w) <> ""%string.
Proof. cbn. discriminate. Qed.

Lemma resizeImage_outcomes_witness :
  exists blob st',
    resizeImage (file mask_image) 2 2 example_store = (Normal blob, st') /\
    images st' = images example_store /\
    isProcessing st' = isProcessing example_store.
Proof.
  eexists _, _.
  assert (E : resizeImage (file mask_image) 2 2 example_store =
              (fst (resizeImage (file mask_image) 2 2 example_store),
               snd (resizeImage (file mask_image) 2 2 example_store)))
    by reflexivity.
  split; [exact E |].
  destruct (resizeImage_outcomes _ _ _ _ _ _ E) as (I & P & _).
  split; [exact I | exact P].
Defined.

Lemma processAll_settles_all_witness :
  images example_store <> [] /\
  exists st',
    processAll example_store = (Normal tt, st') /\
    isProcessing st' = false /\
    (forall img', In img' (images st') -> status img' = done \/ status img' = error).
Proof.
  split; [discriminate |].
  destruct (processAll_settles_all example_store) as (st' & E & Hflag & Hst).
  exists st'. split; [exact E |]. split; [apply Hflag; discriminate | exact Hst].
Defined.

Lemma processAll_done_have_url_witness :
  (forall blob (w : Registry), fst (URL_createObjectURL blob w) <> ""%string) /\
  (forall img, In img (images example_store) -> status img = done ->
     truthy (processedUrl img) = true) /\
  exists st',
    processAll example_store = (Normal tt, st') /\
    List.filter isDoneImage (images st') =
      List.filter (fun img => Status_eqb (status img) done) (images st').
Proof.
  assert (Hinv : forall img, In img (images example_store) -> status img = done ->
                   truthy (processedUrl img) = true).
  { intros img [<- | [<- | [<- | []]]]; (discriminate || reflexivity). }
  split; [exact example_urls_not_empty |]. split; [exact Hinv |].
  destruct (processAll_done_have_url example_store example_urls_not_empty Hinv)
    as (st' & E & _ & Hsel & _).
  exists st'. split; [exact E | exact Hsel].
Defined.


Lemma downloadAll_fetch_failure_aborts_witness :
  In ready_image (images example_offline) /\
  status ready_image = done /\
  processedUrl ready_image = Some "blob:0"%string /\
  "blob:0"%string <> ""%string /\
  (forall w : unit, exists e w', window_fetch "blob:0" w = (inl e, w')) /\
  exists e st' evs,
    downloadAll example_offline = (Throw e, st') /\
    trace st' = trace example_offline ++ evs /\
    Forall (fun ev => is_Click ev = false /\ is_GenerateAsync ev = false) evs.
Proof.
  assert (Hin : In ready_image (images example_offline)) by (right; now left).
  assert (Hrej : forall w : unit, exists e w', window_fetch "blob:0" w = (inl e, w')).
  { intros w. eexists _, _. reflexivity. }
  split; [exact Hin |]. split; [reflexivity |]. split; [reflexivity |].
  split; [discriminate |]. split; [exact Hrej |].
  exact (downloadAll_fetch_failure_aborts example_offline ready_image "blob:0"
           Hin eq_refl eq_refl ltac:(discriminate) Hrej).
Defined.

Lemma getImageDimensions_outcomes_witness :
  exists p',
    getImageDimensions (MkFile "thin.png" "image/png" [Byte.x02; Byte.x02]) example_page
      = (Normal (2, 2), p') /\
    images (app p') = images (app example_page) /\
    isProcessing (app p') = isProcessing (app example_page) /\
    revoked p' = ["blob:1"%string].
Proof.
  eexists.
  assert (E : getImageDimensions (MkFile "thin.png" "image/png" [Byte.x02; Byte.x02])
                example_page =
              (Normal (2, 2),
               snd (getImageDimensions
                      (MkFile "thin.png" "image/png" [Byte.x02; Byte.x02])
                      example_page)))
    by (vm_compute; reflexivity).
  split; [exact E |].
  destruct (getImageDimensions_outcomes _ _ _ _ E) as (I & P & _ & Hrun).
  cbv zeta in Hrun. destruct Hrun as (_ & [(_ & _ & _ & _ & R & _) | (_ & Habs & _)]).
  - split; [exact I |]. split; [exact P | exact R].
  - discriminate Habs.
Defined.

Lemma handleFiles_idle_witness :
  List.filter is_image_file
    (default [] (Some [MkFile "notes.txt" "text/plain" [Byte.x68; Byte.x69]])) = [] /\
  handleFiles (Some [MkFile "notes.txt" "text/plain" [Byte.x68; Byte.x69]]) example_page =
    (Normal tt, example_page).
Proof.
  split; [reflexivity |].
  apply (handleFiles_idle
           (Some [MkFile "notes.txt" "text/plain" [Byte.x68; Byte.x69]]) example_page).
  reflexivity.
Defined.

Lemma removeImage_removes_witness :
  (exists p',
     removeImage "b2" example_twins = (Normal tt, p') /\
     images (app p') = [ready_image] /\
     revoked p' = ["blob:preview-b2"; "blob:7"]%string) /\
  (forall img, In img (images (app example_twins)) -> id img <> "zz"%string) /\
  (exists p',
     removeImage "zz" example_twins = (Normal tt, p') /\
     images (app p') = images (app example_twins) /\
     revoked p' = revoked example_twins).
Proof.
  assert (Hno : forall img, In img (images (app example_twins)) -> id img <> "zz"%string).
  { intros img [<- | [<- | [<- | []]]]; discriminate. }
  split; [| split; [exact Hno |]].
  - destruct (removeImage_removes "b2" example_twins) as (p' & E & I & _ & R & _).
    exists p'. split; [exact E |]. split; [exact I | exact R].
  - destruct (removeImage_removes "zz" example_twins) as (p' & E & _ & _ & _ & _ & Habs).
    exists p'. split; [exact E |]. exact (Habs Hno).
Defined.

Lemma clearAll_revokes_all_witness :
  In ready_image (images (app example_page_loaded)) /\
  processedUrl ready_image = Some "blob:0"%string /\
  exists p',
    clearAll example_page_loaded = (Normal tt, p') /\
    images (app p') = [] /\
    In (previewUrl ready_image) (revoked p') /\
    In "blob:0"%string (revoked p').
Proof.
  assert (Hin : In ready_image (images (app example_page_loaded)))
    by (right; right; now left).
  split; [exact Hin |]. split; [reflexivity |].
  destruct (clearAll_revokes_all example_page_loaded) as (p' & E & I & _ & _ & Hall).
  exists p'. split; [exact E |]. split; [exact I |].
  destruct (Hall ready_image Hin) as [Hprev Hproc].
  split; [exact Hprev |]. apply (Hproc "blob:0"%string); [reflexivity | discriminate].
Defined.

(** ** More properties of the rounding policy *)

(** X17. The policy is monotone: of two dimensions the larger one never gets
    the smaller target. *)
Theorem calculateTargetDimension_monotone (a b : Z) :
  a <= b -> calculateTargetDimension a <= calculateTargetDimension b.
Proof. intros Hab. unfold_round; euclid. Qed.

Lemma calculateTargetDimension_monotone_witness :
  34 <= 35 /\ calculateTargetDimension 34 <= calculateTargetDimension 35.
Proof.
  split; [lia |]. apply (calculateTargetDimension_monotone 34 35). lia.
Defined.

(** X18. The dimensions the policy leaves unchanged are exactly those that
    are at most 2 and the multiples of 4. *)
Theorem calculateTargetDimension_unchanged (val : Z) :
  calculateTargetDimension val = val <-> val <= 2 \/ (4 | val).
Proof.
  split.
  - intros Hfix. destruct (Z.le_gt_cases val 2) as [Hle | Hgt]; [now left |].
    right. rewrite <- Hfix. now apply calculateTargetDimension_aligned.
  - intros [Hle | [k Hk]].
    + now apply calculateTargetDimension_small.
    + unfold_round; euclid.
Qed.

(** X19. Above 2 the target is a nearest multiple of 4: no multiple of 4 is
    closer to the dimension than its target. *)
Theorem calculateTargetDimension_nearest (val m : Z) :
  2 < val -> (4 | m) ->
  Z.abs (calculateTargetDimension val - val) <= Z.abs (m - val).
Proof.
  intros Hgt [k Hk]. unfold_round; euclid.
Qed.

Lemma calculateTargetDimension_nearest_witness :
  2 < 34 /\ (4 | 36) /\
  Z.abs (calculateTargetDimension 34 - 34) <= Z.abs (36 - 34).
Proof.
  assert (Hdiv : (4 | 36)) by (exists 9; reflexivity).
  split; [lia |]. split; [exact Hdiv |].
  apply (calculateTargetDimension_nearest 34 36); [lia | exact Hdiv].
Defined.

(** X20. A positive dimension never collapses: its target is positive too,
    so a resample never asks for a canvas without area. *)
Theorem calculateTargetDimension_positive (val : Z) :
  0 < val -> 0 < calculateTargetDimension val.
Proof. intros Hpos. unfold_round; euclid. Qed.

Lemma calculateTargetDimension_positive_witness :
  0 < 3 /\ 0 < calculateTargetDimension 3.
Proof.
  split; [lia |]. apply (calculateTargetDimension_positive 3). lia.
Defined.

Lemma handleFiles_accounts_for_files_witness :
  exists new errs p',
    handleFiles (Some example_files) example_page = (Normal tt, p') /\
    map (fun img => name (file img)) new = ["photo.png"; "thin.png"]%string /\
    errs = [("empty.png"%string, MkError "Failed to load image for dimensions")].
Proof.
  destruct (handleFiles_accounts_for_files example_files example_page)
    as (new & errs & p' & E & I & C & _).
  assert (E' : handleFiles (Some example_files) example_page =
               (Normal tt, example_page_loaded)) by (vm_compute; reflexivity).
  assert (Hp : p' = example_page_loaded) by congruence. subst p'.
  exists new, errs, example_page_loaded. split; [exact E |].
  change (images (app example_page_loaded))
    with (images (app example_page) ++
          skipn (length (images (app example_page))) (images (app example_page_loaded)))
    in I.
  apply app_inv_head in I.
  change (console example_page_loaded)
    with (console example_page ++ console example_page_loaded) in C.
  apply app_inv_head in C.
  split; [now rewrite <- I | now rewrite <- C].
Defined.
